(** * FinanceBuddy: the ledger mutation engine and the recurring scheduler

    A shallow embedding of [server/storage.ts] (class [DatabaseStorage]),
    of the route [POST /api/recurring-transactions/generate] of the server's
    route file and of the table declarations of [shared/schema.ts].

    Conventions of the embedding.

    - A table with a [serial] primary key is a finite map from the key to the
      record of the other columns; a selected row is the pair of its id and
      those columns.  The [createdAt] columns, and the columns of [users]
      other than the key, are read by nothing modelled here and are left out.
    - A [decimal(12,2)] column holds an integer number of hundredths
      ([Z], "cents").  The code reads such a column with [parseFloat], adds
      in binary floating point and writes the sum back as a string, which the
      column rounds to two places again: for operands of the column's range
      the rounding error of the addition is below half a cent, so the stored
      result is the exact sum.  A value outside the range is rejected by the
      database ("numeric field overflow").  The special value NaN of the
      column type is not modelled.
    - A [timestamp] is the number of milliseconds since the epoch, and the
      server's local time zone is taken to be UTC.
    - Every [await] of a database statement is one step of a state and
      exception monad over the database; a rejected statement throws and the
      effects of the statements before it stay (the code opens no database
      transaction). *)

From stdpp Require Import gmap strings list fin_maps sorting.

Local Open Scope Z_scope.

(** ** shared/schema.ts *)

Inductive AccountType := checking | savings | credit.
Inductive TransactionType := income | expense.
Inductive Frequency := daily | weekly | monthly.

Global Instance TransactionType_eq_dec : EqDecision TransactionType.
Proof. solve_decision. Defined.
Global Instance Frequency_eq_dec : EqDecision Frequency.
Proof. solve_decision. Defined.
Global Instance AccountType_eq_dec : EqDecision AccountType.
Proof. solve_decision. Defined.

(** [accounts] *)
Record Account := mkAccount {
  acc_name : string;
  acc_type : AccountType;
  acc_balance : Z;
  acc_userId : Z
}.

(** [categories] *)
Record Category := mkCategory {
  cat_name : string;
  cat_type : TransactionType;
  cat_userId : Z
}.

(** [transactions]; also the type [InsertTransaction & { userId }] of the
    values handed to [createTransaction], which are exactly these columns.
    The amount is the decimal the column stores for the string handed in. *)
Record Transaction := mkTransaction {
  tx_amount : Z;
  tx_date : Z;
  tx_description : string;
  tx_type : TransactionType;
  tx_accountId : Z;
  tx_categoryId : Z;
  tx_userId : Z
}.

(** [Partial<InsertTransaction>]: every field may be absent. *)
Record TransactionPatch := mkPatch {
  p_amount : option Z;
  p_date : option Z;
  p_description : option string;
  p_type : option TransactionType;
  p_accountId : option Z;
  p_categoryId : option Z
}.

(** [recurring_transactions] *)
Record RecurringTransaction := mkRecurring {
  rt_amount : Z;
  rt_description : string;
  rt_type : TransactionType;
  rt_frequency : Frequency;
  rt_nextRunDate : Z;
  rt_accountId : Z;
  rt_categoryId : Z;
  rt_userId : Z;
  rt_isActive : bool
}.

(** The database: one map per table, and the sequence behind
    [transactions.id]. *)
Record Db := mkDb {
  users : gset Z;
  accounts : gmap Z Account;
  categories : gmap Z Category;
  transactions : gmap Z Transaction;
  recurringTransactions : gmap Z RecurringTransaction;
  transactions_id_seq : Z
}.

Definition set_accounts (m : gmap Z Account) (db : Db) : Db :=
  mkDb (users db) m (categories db) (transactions db)
       (recurringTransactions db) (transactions_id_seq db).

Definition set_transactions (m : gmap Z Transaction) (db : Db) : Db :=
  mkDb (users db) (accounts db) (categories db) m
       (recurringTransactions db) (transactions_id_seq db).

Definition set_recurringTransactions (m : gmap Z RecurringTransaction) (db : Db) : Db :=
  mkDb (users db) (accounts db) (categories db) (transactions db)
       m (transactions_id_seq db).

Definition set_transactions_id_seq (n : Z) (db : Db) : Db :=
  mkDb (users db) (accounts db) (categories db) (transactions db)
       (recurringTransactions db) n.

(** [decimal(12,2)]: at most ten digits before the point, in cents. *)
Definition decimal_12_2 (v : Z) : bool := Z.abs v <? 10 ^ 12.

(** ** Promises over the database *)

Inductive Error :=
  | ForeignKeyViolation
  | UniqueViolation
  | NumericFieldOverflow
  | TransactionNotFound
  | NoValuesToSet
  | TypeError.

Inductive Settled (A : Type) :=
  | Fulfilled (a : A)
  | Rejected (e : Error).
Arguments Fulfilled {A} a.
Arguments Rejected {A} e.

Definition Async (A : Type) : Type := Db -> Settled A * Db.

Definition resolve {A} (a : A) : Async A := fun db => (Fulfilled a, db).
Definition throw {A} (e : Error) : Async A := fun db => (Rejected e, db).
Definition await {A B} (m : Async A) (k : A -> Async B) : Async B :=
  fun db =>
    match m db with
    | (Fulfilled a, db') => k a db'
    | (Rejected e, db') => (Rejected e, db')
    end.

Notation "'let!' x ':=' m 'in' k" := (await m (fun x => k))
  (at level 10, x pattern, m at level 100, k at level 200).
Notation "m ';;' k" := (await m (fun _ => k))
  (at level 100, k at level 200, right associativity).

Definition read {A} (f : Db -> A) : Async A := fun db => (Fulfilled (f db), db).
Definition write (f : Db -> Db) : Async unit := fun db => (Fulfilled tt, f db).
Definition check (b : bool) (e : Error) : Async unit :=
  if b then resolve tt else throw e.

(** [const [row] = await ...; row.field]: reading a property of the first
    row of an empty result is a [TypeError]. *)
Definition first_row {A} (rows : option A) : Async A :=
  match rows with
  | Some a => resolve a
  | None => throw TypeError
  end.

(** ** The statements the ledger sends to the database *)

(** [nextval] of the sequence behind the [serial] key of [transactions];
    a sequence is never rolled back. *)
Definition nextval : Async Z := fun db =>
  (Fulfilled (transactions_id_seq db),
   set_transactions_id_seq (transactions_id_seq db + 1) db).

(** The [references(...)] clauses of [transactions]. *)
Definition references_ok (v : Transaction) (db : Db) : bool :=
  bool_decide (is_Some (accounts db !! tx_accountId v))
  && bool_decide (is_Some (categories db !! tx_categoryId v))
  && bool_decide (tx_userId v ∈ users db).

(** [db.insert(transactions).values(v).returning()] *)
Definition insert_transaction (v : Transaction) : Async (Z * Transaction) :=
  check (decimal_12_2 (tx_amount v)) NumericFieldOverflow ;;
  let! id := nextval in
  let! taken := read (fun db => transactions db !! id) in
  check (bool_decide (taken = None)) UniqueViolation ;;
  let! ok := read (references_ok v) in
  check ok ForeignKeyViolation ;;
  write (fun db => set_transactions (<[id := v]> (transactions db)) db) ;;
  resolve (id, v).

(** [db.select().from(accounts).where(eq(accounts.id, id))] *)
Definition select_account (id : Z) : Async (option Account) :=
  read (fun db => accounts db !! id).

Definition with_balance (b : Z) (a : Account) : Account :=
  mkAccount (acc_name a) (acc_type a) b (acc_userId a).

(** [db.update(accounts).set({ balance }).where(eq(accounts.id, id))] *)
Definition update_account_balance (id : Z) (balance : Z) : Async unit :=
  check (decimal_12_2 balance) NumericFieldOverflow ;;
  write (fun db => set_accounts (alter (with_balance balance) id (accounts db)) db).

(** [db.select().from(transactions).where(and(eq(id), eq(userId)))] *)
Definition select_transaction (id userId : Z) : Async (option Transaction) :=
  read (fun db =>
    match transactions db !! id with
    | Some t => if bool_decide (tx_userId t = userId) then Some t else None
    | None => None
    end).

Definition apply_patch (p : TransactionPatch) (t : Transaction) : Transaction :=
  mkTransaction
    (default (tx_amount t) (p_amount p))
    (default (tx_date t) (p_date p))
    (default (tx_description t) (p_description p))
    (default (tx_type t) (p_type p))
    (default (tx_accountId t) (p_accountId p))
    (default (tx_categoryId t) (p_categoryId p))
    (tx_userId t).

(** A changed reference of an updated row is checked against its table. *)
Definition patch_references_ok (old new : Transaction) (db : Db) : bool :=
  (bool_decide (tx_accountId new = tx_accountId old)
   || bool_decide (is_Some (accounts db !! tx_accountId new)))
  && (bool_decide (tx_categoryId new = tx_categoryId old)
      || bool_decide (is_Some (categories db !! tx_categoryId new))).

(** The query builder refuses a [set] that names no column. *)
Definition sets_a_column (p : TransactionPatch) : bool :=
  bool_decide (is_Some (p_amount p)) || bool_decide (is_Some (p_date p))
  || bool_decide (is_Some (p_description p)) || bool_decide (is_Some (p_type p))
  || bool_decide (is_Some (p_accountId p)) || bool_decide (is_Some (p_categoryId p)).

(** [db.update(transactions).set(patch).where(and(eq(id), eq(userId))).returning()] *)
Definition update_transaction (id userId : Z) (patch : TransactionPatch)
  : Async (option Transaction) :=
  check (sets_a_column patch) NoValuesToSet ;;
  let! matched := select_transaction id userId in
  match matched with
  | None => resolve None
  | Some old =>
      let new := apply_patch patch old in
      check (from_option decimal_12_2 true (p_amount patch)) NumericFieldOverflow ;;
      let! ok := read (patch_references_ok old new) in
      check ok ForeignKeyViolation ;;
      write (fun db => set_transactions (<[id := new]> (transactions db)) db) ;;
      resolve (Some new)
  end.

(** [db.delete(transactions).where(and(eq(id), eq(userId)))] *)
Definition delete_transaction (id userId : Z) : Async unit :=
  let! matched := select_transaction id userId in
  match matched with
  | None => resolve tt
  | Some _ => write (fun db => set_transactions (delete id (transactions db)) db)
  end.

(** ** server/storage.ts: the ledger mutation engine *)

Definition getTransaction (id userId : Z) : Async (option Transaction) :=
  select_transaction id userId.

(** What a transaction adds to the balance of its account:
    [type === 'income' ? amount : -amount]. *)
Definition balanceChange (t : Transaction) : Z :=
  match tx_type t with
  | income => tx_amount t
  | expense => - tx_amount t
  end.

Definition createTransaction (transaction : Transaction) : Async (Z * Transaction) :=
  let! newTransaction := insert_transaction transaction in
  let change := balanceChange (snd newTransaction) in
  let! rows := select_account (tx_accountId (snd newTransaction)) in
  let! currentAccount := first_row rows in
  let currentBalance := acc_balance currentAccount in
  update_account_balance (tx_accountId (snd newTransaction)) (currentBalance + change) ;;
  resolve newTransaction.

Definition updateTransaction (id userId : Z) (transaction : TransactionPatch)
  : Async Transaction :=
  let! found := getTransaction id userId in
  match found with
  | None => throw TransactionNotFound
  | Some original =>
      let! updated := update_transaction id userId transaction in
      (* revert the original balance change *)
      let originalBalanceChange := - balanceChange original in
      let! rows := select_account (tx_accountId original) in
      let! currentAccount := first_row rows in
      let currentBalance := acc_balance currentAccount in
      update_account_balance (tx_accountId original)
                             (currentBalance + originalBalanceChange) ;;
      (* apply the new balance change *)
      let! updatedTransaction := first_row updated in
      let newBalanceChange := balanceChange updatedTransaction in
      let! rows' := select_account (tx_accountId updatedTransaction) in
      let! newAccount := first_row rows' in
      let newCurrentBalance := acc_balance newAccount in
      update_account_balance (tx_accountId updatedTransaction)
                             (newCurrentBalance + newBalanceChange) ;;
      resolve updatedTransaction
  end.

Definition deleteTransaction (id userId : Z) : Async unit :=
  let! found := getTransaction id userId in
  match found with
  | None => throw TransactionNotFound
  | Some transaction =>
      let change := - balanceChange transaction in
      let! rows := select_account (tx_accountId transaction) in
      let! currentAccount := first_row rows in
      let currentBalance := acc_balance currentAccount in
      update_account_balance (tx_accountId transaction) (currentBalance + change) ;;
      delete_transaction id userId
  end.

(** ** The [Date] object (ECMA-262, "Time Values and Time Range")

    The route reads and writes a date through [getDate]/[setDate] and
    [getMonth]/[setMonth].  These are the abstract operations of the
    standard, with local time equal to UTC. *)

Definition msPerDay : Z := 86400000.

Definition Day (t : Z) : Z := t / msPerDay.
Definition TimeWithinDay (t : Z) : Z := t mod msPerDay.

Definition isLeapYear (y : Z) : bool :=
  (y mod 4 =? 0) && (negb (y mod 100 =? 0) || (y mod 400 =? 0)).

Definition DaysInYear (y : Z) : Z := if isLeapYear y then 366 else 365.

Definition DayFromYear (y : Z) : Z :=
  365 * (y - 1970) + (y - 1969) / 4 - (y - 1901) / 100 + (y - 1601) / 400.

Definition TimeFromYear (y : Z) : Z := msPerDay * DayFromYear y.

(** The largest [y] with [TimeFromYear y <= t], computed over the 400-year
    cycle that starts in 1601 (see [YearFromTime_largest]). *)
Definition YearFromTime (t : Z) : Z :=
  let d := Day t - DayFromYear 1601 in
  let n400 := d / 146097 in
  let r := d mod 146097 in
  let n100 := Z.min (r / 36524) 3 in
  let r2 := r - n100 * 36524 in
  let n4 := r2 / 1461 in
  let r3 := r2 mod 1461 in
  let n1 := Z.min (r3 / 365) 3 in
  1601 + 400 * n400 + 100 * n100 + 4 * n4 + n1.

Definition InLeapYear (t : Z) : Z :=
  if isLeapYear (YearFromTime t) then 1 else 0.

Definition DayWithinYear (t : Z) : Z := Day t - DayFromYear (YearFromTime t).

(** The day within the year on which month [m] (0 = January) starts. *)
Definition monthStart (m leap : Z) : Z :=
  match m with
  | 0 => 0
  | 1 => 31
  | 2 => 59 + leap
  | 3 => 90 + leap
  | 4 => 120 + leap
  | 5 => 151 + leap
  | 6 => 181 + leap
  | 7 => 212 + leap
  | 8 => 243 + leap
  | 9 => 273 + leap
  | 10 => 304 + leap
  | _ => 334 + leap
  end.

Definition monthOfDay (d leap : Z) : Z :=
  if d <? 31 then 0
  else if d <? 59 + leap then 1
  else if d <? 90 + leap then 2
  else if d <? 120 + leap then 3
  else if d <? 151 + leap then 4
  else if d <? 181 + leap then 5
  else if d <? 212 + leap then 6
  else if d <? 243 + leap then 7
  else if d <? 273 + leap then 8
  else if d <? 304 + leap then 9
  else if d <? 334 + leap then 10
  else 11.

Definition MonthFromTime (t : Z) : Z := monthOfDay (DayWithinYear t) (InLeapYear t).

Definition DateFromTime (t : Z) : Z :=
  DayWithinYear t - monthStart (MonthFromTime t) (InLeapYear t) + 1.

(** [MakeDay(year, month, date)]: the day number of the first of the month
    [month mod 12] of the year [year + floor(month / 12)], plus [date - 1]. *)
Definition MakeDay (year month date : Z) : Z :=
  let ym := year + month / 12 in
  let mn := month mod 12 in
  DayFromYear ym + monthStart mn (if isLeapYear ym then 1 else 0) + date - 1.

Definition MakeDate (day time : Z) : Z := day * msPerDay + time.

Definition getDate (t : Z) : Z := DateFromTime t.
Definition getMonth (t : Z) : Z := MonthFromTime t.
Definition getFullYear (t : Z) : Z := YearFromTime t.

Definition setDate (t date : Z) : Z :=
  MakeDate (MakeDay (YearFromTime t) (MonthFromTime t) date) (TimeWithinDay t).

Definition setMonth (t month : Z) : Z :=
  MakeDate (MakeDay (YearFromTime t) month (DateFromTime t)) (TimeWithinDay t).

(** [new Date(year, month, date)] at midnight, for writing dates down. *)
Definition mkDate (year month date : Z) : Z := MakeDate (MakeDay year month date) 0.

(** ** The recurring scheduler *)

(** A row of the due list: the selected columns of the definition with the
    joined account and category rows. *)
Record DueRecurring := mkDue {
  due_id : Z;
  due_recurring : RecurringTransaction;
  due_account : Account;
  due_category : Category
}.

Definition join_due (now : Z) (db : Db) (row : Z * RecurringTransaction)
  : option DueRecurring :=
  let r := snd row in
  match accounts db !! rt_accountId r, categories db !! rt_categoryId r with
  | Some a, Some c =>
      if rt_isActive r && (rt_nextRunDate r <=? now)
      then Some (mkDue (fst row) r a c)
      else None
  | _, _ => None
  end.

(** The rows the query of [getRecurringTransactionsDue] selects.  It has no
    ORDER BY: the rows come in the order in which the table is enumerated. *)
Definition dueList (now : Z) (db : Db) : list DueRecurring :=
  omap (join_due now db) (map_to_list (recurringTransactions db)).

(** [getRecurringTransactionsDue]; [now] is the value of [new Date()]. *)
Definition getRecurringTransactionsDue (now : Z) : Async (list DueRecurring) :=
  read (dueList now).

Definition with_nextRunDate (d : Z) (r : RecurringTransaction) : RecurringTransaction :=
  mkRecurring (rt_amount r) (rt_description r) (rt_type r) (rt_frequency r) d
              (rt_accountId r) (rt_categoryId r) (rt_userId r) (rt_isActive r).

(** [updateRecurringTransaction(id, userId, { nextRunDate })], the one patch
    the route sends. *)
Definition updateRecurringTransaction (id userId nextRunDate : Z)
  : Async (option RecurringTransaction) :=
  let! found := read (fun db => recurringTransactions db !! id) in
  match found with
  | Some r =>
      if bool_decide (rt_userId r = userId) then
        write (fun db => set_recurringTransactions
                 (<[id := with_nextRunDate nextRunDate r]> (recurringTransactions db)) db) ;;
        resolve (Some (with_nextRunDate nextRunDate r))
      else resolve None
  | None => resolve None
  end.

(** The [switch] on the frequency. *)
Definition advance (frequency : Frequency) (nextRunDate : Z) : Z :=
  match frequency with
  | daily => setDate nextRunDate (getDate nextRunDate + 1)
  | weekly => setDate nextRunDate (getDate nextRunDate + 7)
  | monthly => setMonth nextRunDate (getMonth nextRunDate + 1)
  end.

(** The values of the transaction the route creates for a due definition. *)
Definition materialize (now : Z) (r : RecurringTransaction) : Transaction :=
  mkTransaction (rt_amount r) now (rt_description r) (rt_type r)
                (rt_accountId r) (rt_categoryId r) (rt_userId r).

(** One iteration of the [for ... of] loop. *)
Definition generate_one (now : Z) (d : DueRecurring) : Async (Z * Transaction) :=
  let r := due_recurring d in
  let! transaction := createTransaction (materialize now r) in
  let nextRunDate := advance (rt_frequency r) (rt_nextRunDate r) in
  updateRecurringTransaction (due_id d) (rt_userId r) nextRunDate ;;
  resolve transaction.

Fixpoint generate_loop (now : Z) (dueTransactions : list DueRecurring)
    (generatedTransactions : list (Z * Transaction)) : Async (list (Z * Transaction)) :=
  match dueTransactions with
  | [] => resolve generatedTransactions
  | d :: rest =>
      let! transaction := generate_one now d in
      generate_loop now rest (generatedTransactions ++ [transaction])
  end.

(** What the route answers. *)
Inductive Response :=
  | Json200 (generated : nat) (transactions : list (Z * Transaction))
  | Json500 (message : string).

(** [POST /api/recurring-transactions/generate]: the whole loop runs inside
    one [try]; any rejection is answered by the [catch]. *)
Definition generate (now : Z) (db : Db) : Response * Db :=
  match (let! dueTransactions := getRecurringTransactionsDue now in
         generate_loop now dueTransactions []) db with
  | (Fulfilled generatedTransactions, db') =>
      (Json200 (length generatedTransactions) generatedTransactions, db')
  | (Rejected _, db') =>
      (Json500 "Failed to generate recurring transactions", db')
  end.

(** ** Quantities of the ledger the properties speak of *)

Definition sum_over (f : Transaction -> Z) (m : gmap Z Transaction) : Z :=
  map_fold (fun _ t s => s + f t) 0 m.

Definition incomeOf (a : Z) (t : Transaction) : Z :=
  if bool_decide (tx_accountId t = a)
  then match tx_type t with income => tx_amount t | expense => 0 end
  else 0.

Definition expenseOf (a : Z) (t : Transaction) : Z :=
  if bool_decide (tx_accountId t = a)
  then match tx_type t with income => 0 | expense => tx_amount t end
  else 0.

(** The sum of the amounts of the income (expense) transactions that
    currently reference account [a]. *)
Definition incomeTotal (db : Db) (a : Z) : Z := sum_over (incomeOf a) (transactions db).
Definition expenseTotal (db : Db) (a : Z) : Z := sum_over (expenseOf a) (transactions db).

Definition balanceOf (db : Db) (a : Z) : option Z := acc_balance <$> accounts db !! a.

(** A completed mutation moves every balance by exactly the change of the
    signed sum of the transactions that reference the account. *)
Definition tracks (db db' : Db) : Prop :=
  forall a b, balanceOf db a = Some b ->
    balanceOf db' a =
      Some (b + (incomeTotal db' a - expenseTotal db' a)
              - (incomeTotal db a - expenseTotal db a)).

(** Every stored balance is a value of its column type. *)
Definition balances_in_range (db : Db) : Prop :=
  map_Forall (fun _ acc => decimal_12_2 (acc_balance acc) = true) (accounts db).

Global Instance balances_in_range_dec db : Decision (balances_in_range db).
Proof. unfold balances_in_range. apply _. Defined.

(** A call of one of the three mutations, and a sequence of calls each of
    which completes. *)
Inductive Mutation :=
  | Create (transaction : Transaction)
  | Update (id userId : Z) (patch : TransactionPatch)
  | Delete (id userId : Z).

Definition run_mutation (m : Mutation) : Async unit :=
  match m with
  | Create v => (createTransaction v ;; resolve tt)
  | Update id u p => (updateTransaction id u p ;; resolve tt)
  | Delete id u => deleteTransaction id u
  end.

Fixpoint run_mutations (ms : list Mutation) : Async unit :=
  match ms with
  | [] => resolve tt
  | m :: rest => (run_mutation m ;; run_mutations rest)
  end.

(** The balance of account [a] after "undo the old transaction, redo the new
    one", worded as the design document words it: one net adjustment when the
    account is unchanged, a revert on the old account and an application on
    the new one otherwise. *)
Definition net_adjustment (before after : Transaction) (a balance : Z) : Z :=
  if bool_decide (tx_accountId after = tx_accountId before) then
    if bool_decide (a = tx_accountId before)
    then balance + (balanceChange after - balanceChange before)
    else balance
  else if bool_decide (a = tx_accountId before) then balance - balanceChange before
  else if bool_decide (a = tx_accountId after) then balance + balanceChange after
  else balance.

(** ** A small database for the examples

    Two users; user 1 owns account 1 and the categories 1 (income) and 2
    (expense), user 2 owns account 2.  Amounts are in cents. *)

Definition example_db (balance1 balance2 : Z) : Db :=
  mkDb {[ 1; 2 ]}
       (<[1 := mkAccount "Checking" checking balance1 1]>
          (<[2 := mkAccount "Savings" savings balance2 2]> ∅))
       (<[1 := mkCategory "Salary" income 1]>
          (<[2 := mkCategory "Rent" expense 1]> ∅))
       ∅ ∅ 1.

Definition example_tx (amount : Z) (type : TransactionType) (accountId userId : Z)
  : Transaction :=
  mkTransaction amount 1700000000000 "example" type accountId
                (match type with income => 1 | expense => 2 end) userId.

Definition no_patch : TransactionPatch := mkPatch None None None None None None.

(** The example database with one income transaction, id 1, of user 1 on
    account 1. *)
Definition example_ledger (balance1 amount : Z) : Db :=
  set_transactions_id_seq 2
    (set_transactions (<[1 := example_tx amount income 1 1]> ∅) (example_db balance1 0)).

Definition patch_amount (amount : Z) : TransactionPatch :=
  mkPatch (Some amount) None None None None None.
Definition patch_type (type : TransactionType) : TransactionPatch :=
  mkPatch None None None (Some type) None None.
Definition patch_account (accountId : Z) : TransactionPatch :=
  mkPatch None None None None (Some accountId) None.

(** An account filled to within a cent of the largest value of
    [decimal(12,2)], 9999999999.99. *)
Definition full_db : Db := example_db 999999999999 0.

(** The number of days of month [m] (0 = January) of year [y]. *)
Definition daysInMonth (m y : Z) : Z :=
  match m with
  | 1 => if isLeapYear y then 29 else 28
  | 3 | 5 | 8 | 10 => 30
  | _ => 31
  end.

(** ** Quantities of the scheduler the properties speak of *)

(** The number of iterations of the loop of a pass at [now] that are for the
    definition [id]; each iteration that completes has created one
    transaction. *)
Definition generatedFor (id now : Z) (db : Db) : nat :=
  length (filter (fun d => due_id d = id) (dueList now db)).

(** The table of definitions after the iterations for [due] have completed. *)
Definition advanced (due : list DueRecurring) (m : gmap Z RecurringTransaction)
  : gmap Z RecurringTransaction :=
  foldl (fun m d =>
           let r := due_recurring d in
           <[due_id d := with_nextRunDate (advance (rt_frequency r) (rt_nextRunDate r)) r]> m)
        m due.

(** The transaction [tx] is the one a pass at [now] creates for the due
    row [d]. *)
Definition materialized (now : Z) (d : DueRecurring) (tx : Z * Transaction) : Prop :=
  snd tx = materialize now (due_recurring d).

(** A definition with a row for its account and for its category, and
    active: the conditions of the due query other than the date. *)
Definition eligible (db : Db) (r : RecurringTransaction) : bool :=
  rt_isActive r
  && bool_decide (is_Some (accounts db !! rt_accountId r))
  && bool_decide (is_Some (categories db !! rt_categoryId r)).

(** The number of transactions [k] successive passes at [now], all answered
    with 200, create for the definition [id]. *)
Fixpoint generatedOver (k : nat) (id now : Z) (db : Db) : option nat :=
  match k with
  | O => Some O
  | S k' =>
      match generate now db with
      | (Json200 _ _, db') =>
          (fun n => (generatedFor id now db + n)%nat) <$> generatedOver k' id now db'
      | (Json500 _, _) => None
      end
  end.

(** The [j]-th date of the schedule that starts at [next], and the number
    of the first [k] dates of the schedule that are not after [now]: the
    period boundaries crossed at [now], [k] at most. *)
Definition scheduleDate (frequency : Frequency) (next : Z) (j : nat) : Z :=
  Nat.iter j (advance frequency) next.

Fixpoint boundariesCrossed (k : nat) (frequency : Frequency) (next now : Z) : nat :=
  match k with
  | O => O
  | S k' =>
      (boundariesCrossed k' frequency next now
       + if (scheduleDate frequency next k' <=? now)%Z then 1 else 0)%nat
  end.

(** The same number, counted the way the passes run: one more for each date
    reached, until a date is not reached. *)
Fixpoint reachedDates (k : nat) (frequency : Frequency) (next now : Z) : nat :=
  match k with
  | O => O
  | S k' =>
      if next <=? now
      then S (reachedDates k' frequency (advance frequency next) now)
      else O
  end.

(** ** A small schedule for the examples

    Three active definitions of user 1, all due at noon of 1 February 2023:
    a monthly expense on account 2 whose next run is 31 January, a weekly
    income of 5000.00 on account 1 and a daily expense on account 2.  Their
    ids 3, 6 and 8 are enumerated in this order, which is also the order of
    their insertion. *)

Definition example_recurring (amount : Z) (type : TransactionType)
    (frequency : Frequency) (nextRunDate accountId : Z) : RecurringTransaction :=
  mkRecurring amount "recurring" type frequency nextRunDate accountId
              (match type with income => 1 | expense => 2 end) 1 true.

Definition example_now : Z := MakeDate (MakeDay 2023 1 1) 43200000.

Definition example_schedule (balance1 balance2 : Z) : Db :=
  set_recurringTransactions
    (<[3 := example_recurring 80000 expense monthly (mkDate 2023 0 31) 2]>
       (<[6 := example_recurring 500000 income weekly (mkDate 2023 0 25) 1]>
          (<[8 := example_recurring 1200 expense daily (mkDate 2023 0 30) 2]> ∅)))
    (example_db balance1 balance2).

(** The example schedule with a fourth definition, due and active, whose
    account 9 has no row. *)
Definition dangling_schedule : Db :=
  set_recurringTransactions
    (<[4 := example_recurring 700 expense daily (mkDate 2023 0 30) 9]>
       (recurringTransactions (example_schedule 0 0)))
    (example_schedule 0 0).

(** ** Two calls of [createTransaction] at once

    A call runs from one [await] to the next without interruption; between
    two of its statements the statements of another request may run.  A call
    in flight is at its insert, at its read of the balance (holding the row
    it inserted) or at its write (holding also the balance it read). *)

Inductive CreateCall :=
  | AtInsert (transaction : Transaction)
  | AtSelect (newTransaction : Z * Transaction)
  | AtUpdate (newTransaction : Z * Transaction) (currentBalance : Z)
  | Finished (outcome : Settled (Z * Transaction)).

(** The next statement of a call. *)
Definition step_call (c : CreateCall) (db : Db) : CreateCall * Db :=
  match c with
  | AtInsert transaction =>
      match insert_transaction transaction db with
      | (Fulfilled newTransaction, db') => (AtSelect newTransaction, db')
      | (Rejected e, db') => (Finished (Rejected e), db')
      end
  | AtSelect newTransaction =>
      match (let! rows := select_account (tx_accountId (snd newTransaction)) in
             first_row rows) db with
      | (Fulfilled currentAccount, db') =>
          (AtUpdate newTransaction (acc_balance currentAccount), db')
      | (Rejected e, db') => (Finished (Rejected e), db')
      end
  | AtUpdate newTransaction currentBalance =>
      match update_account_balance (tx_accountId (snd newTransaction))
              (currentBalance + balanceChange (snd newTransaction)) db with
      | (Fulfilled _, db') => (Finished (Fulfilled newTransaction), db')
      | (Rejected e, db') => (Finished (Rejected e), db')
      end
  | Finished _ => (c, db)
  end.

(** A call run alone: its three statements in a row. *)
Definition run_alone (transaction : Transaction) (db : Db) : CreateCall * Db :=
  let '(c1, db1) := step_call (AtInsert transaction) db in
  let '(c2, db2) := step_call c1 db1 in
  step_call c2 db2.

(** Two calls and a schedule: [true] lets the first call run its next
    statement, [false] the second. *)
Fixpoint interleave (schedule : list bool) (c1 c2 : CreateCall) (db : Db)
  : CreateCall * CreateCall * Db :=
  match schedule with
  | [] => (c1, c2, db)
  | true :: rest => let '(c1', db') := step_call c1 db in interleave rest c1' c2 db'
  | false :: rest => let '(c2', db') := step_call c2 db in interleave rest c1 c2' db'
  end.

(** All schedules of a given length, and the number of statements a
    schedule gives to a call. *)
Fixpoint all_schedules (len : nat) : list (list bool) :=
  match len with
  | O => [[]]
  | S len' => (cons true <$> all_schedules len') ++ (cons false <$> all_schedules len')
  end.

Definition statements_of (call : bool) (schedule : list bool) : nat :=
  length (filter (fun b => b = call) schedule).

(** The two incomes of 10.00 and 20.00 on account 1, and the balance of the
    account when both calls, run under a schedule from a balance of 0, have
    completed. *)
Definition income_10 : Transaction := example_tx 1000 income 1 1.
Definition income_20 : Transaction := example_tx 2000 income 1 1.

Definition final_balance (schedule : list bool) : option Z :=
  match interleave schedule (AtInsert income_10) (AtInsert income_20) (example_db 0 0) with
  | (Finished (Fulfilled _), Finished (Fulfilled _), db') => balanceOf db' 1
  | _ => None
  end.

(** ** Tactics *)

(** Unfold the operations down to the monad, split the cases of a run, and
    turn boolean tests into propositions. *)
Ltac async_unfold :=
  unfold createTransaction, updateTransaction, deleteTransaction, getTransaction,
    insert_transaction, update_transaction, delete_transaction,
    select_account, select_transaction, update_account_balance, nextval,
    first_row, check, await, read, write, resolve, throw in *.

Ltac async_cases := repeat (case_match; simplify_eq/=).

Ltac reflect_bools :=
  repeat match goal with
  | H : bool_decide _ = true |- _ => apply bool_decide_eq_true in H
  | H : bool_decide _ = false |- _ => apply bool_decide_eq_false in H
  | H : _ && _ = true |- _ => apply andb_true_iff in H; destruct H
  end.

(** Case analysis on a month number, and evaluation of the tables. *)
Ltac month_cases m :=
  let H := fresh in
  assert (H : m = 0 \/ m = 1 \/ m = 2 \/ m = 3 \/ m = 4 \/ m = 5 \/ m = 6
              \/ m = 7 \/ m = 8 \/ m = 9 \/ m = 10 \/ m = 11) by lia;
  repeat (destruct H as [-> | H]); [.. | subst m].

Ltac eval_const_add :=
  repeat match goal with
  | |- context [Zpos ?a + 1] =>
      let v := eval vm_compute in (Zpos a + 1) in change (Zpos a + 1) with v
  | |- context [0 + 1] => change (0 + 1) with 1
  end.

Ltac eval_monthStart :=
  repeat match goal with
  | |- context [monthStart ?a ?b] =>
      let v := eval vm_compute in (monthStart a b) in change (monthStart a b) with v
  end.

(** * The rest of the storage layer *)

(** ** Conditions a database of the schema satisfies *)

(** The [references(...)] clauses of [transactions] and of
    [recurring_transactions] that name an account or a category. *)
Definition references_intact (db : Db) : Prop :=
  map_Forall (fun _ t => is_Some (accounts db !! tx_accountId t)
                         /\ is_Some (categories db !! tx_categoryId t))
             (transactions db)
  /\ map_Forall (fun _ r => is_Some (accounts db !! rt_accountId r)
                            /\ is_Some (categories db !! rt_categoryId r))
                (recurringTransactions db).

Global Instance references_intact_dec db : Decision (references_intact db).
Proof. unfold references_intact. apply _. Defined.

(** The sequence behind [transactions.id] is ahead of every id in use. *)
Definition serial_ahead (db : Db) : Prop :=
  map_Forall (fun i _ => i < transactions_id_seq db) (transactions db).

Global Instance serial_ahead_dec db : Decision (serial_ahead db).
Proof. unfold serial_ahead. apply _. Defined.

(** ** Accounts *)

(** [Partial<InsertAccount>] *)
Record AccountPatch := mkAccountPatch {
  ap_name : option string;
  ap_type : option AccountType;
  ap_balance : option Z
}.

Definition apply_account_patch (p : AccountPatch) (a : Account) : Account :=
  mkAccount (default (acc_name a) (ap_name p)) (default (acc_type a) (ap_type p))
            (default (acc_balance a) (ap_balance p)) (acc_userId a).

Definition owned_account (id userId : Z) (db : Db) : option Account :=
  match accounts db !! id with
  | Some a => if bool_decide (acc_userId a = userId) then Some a else None
  | None => None
  end.

Definition getAccount (id userId : Z) : Async (option Account) :=
  read (owned_account id userId).

Definition getUserAccounts (userId : Z) : Async (list (Z * Account)) :=
  read (fun db => filter (fun row => acc_userId (snd row) = userId)
                         (map_to_list (accounts db))).

Definition updateAccount (id userId : Z) (account : AccountPatch)
  : Async (option (Z * Account)) :=
  check (bool_decide (is_Some (ap_name account)) || bool_decide (is_Some (ap_type account))
         || bool_decide (is_Some (ap_balance account))) NoValuesToSet ;;
  let! matched := read (owned_account id userId) in
  match matched with
  | None => resolve None
  | Some a =>
      check (from_option decimal_12_2 true (ap_balance account)) NumericFieldOverflow ;;
      write (fun db => set_accounts (<[id := apply_account_patch account a]> (accounts db)) db) ;;
      resolve (Some (id, apply_account_patch account a))
  end.

(** A row of [transactions] or of [recurring_transactions] references the
    account. *)
Definition account_in_use (id : Z) (db : Db) : Prop :=
  (exists i t, transactions db !! i = Some t /\ tx_accountId t = id)
  \/ (exists i r, recurringTransactions db !! i = Some r /\ rt_accountId r = id).

Global Instance account_in_use_dec id db : Decision (account_in_use id db).
Proof.
  unfold account_in_use.
  refine (cast_if (decide (map_Exists (fun _ t => tx_accountId t = id) (transactions db)
                           \/ map_Exists (fun _ r => rt_accountId r = id)
                                         (recurringTransactions db))));
    unfold map_Exists in *; naive_solver.
Defined.

(** [deleteAccount]: the foreign keys have no [onDelete] action, so the
    delete of a referenced row is an error. *)
Definition deleteAccount (id userId : Z) : Async unit :=
  let! matched := read (owned_account id userId) in
  match matched with
  | None => resolve tt
  | Some _ =>
      let! used := read (fun db => bool_decide (account_in_use id db)) in
      check (negb used) ForeignKeyViolation ;;
      write (fun db => set_accounts (delete id (accounts db)) db)
  end.

(** ** Listing transactions *)

(** The optional [filters] of [getUserTransactions]. *)
Record TransactionFilters := mkFilters {
  f_accountId : option Z;
  f_categoryId : option Z;
  f_startDate : option Z;
  f_endDate : option Z
}.

(** A row of the listing: the transaction with its joined account and
    category. *)
Record TransactionView := mkView {
  tv_id : Z;
  tv_transaction : Transaction;
  tv_account : Account;
  tv_category : Category
}.

(** [if (filters.accountId)]: an id is tested for truthiness, and 0 is
    falsy; a [Date] object is always truthy. *)
Definition truthy_id (o : option Z) : option Z :=
  match o with
  | Some 0 => None
  | _ => o
  end.

Definition passes_filters (filters : option TransactionFilters) (t : Transaction) : Prop :=
  match filters with
  | None => True
  | Some f =>
      from_option (fun a => tx_accountId t = a) True (truthy_id (f_accountId f))
      /\ from_option (fun c => tx_categoryId t = c) True (truthy_id (f_categoryId f))
      /\ from_option (fun d => d <= tx_date t) True (f_startDate f)
      /\ from_option (fun d => tx_date t <= d) True (f_endDate f)
  end.

Global Instance passes_filters_dec filters t : Decision (passes_filters filters t).
Proof.
  unfold passes_filters. destruct filters as [[a c s e] |]; [| apply _].
  cbn. destruct (truthy_id a), (truthy_id c), s, e; cbn; apply _.
Defined.

Definition join_transaction (userId : Z) (filters : option TransactionFilters) (db : Db)
    (row : Z * Transaction) : option TransactionView :=
  let t := snd row in
  match accounts db !! tx_accountId t, categories db !! tx_categoryId t with
  | Some a, Some c =>
      if bool_decide (tx_userId t = userId /\ passes_filters filters t)
      then Some (mkView (fst row) t a c)
      else None
  | _, _ => None
  end.

(** [orderBy(desc(transactions.date))] *)
Definition newer_first (x y : TransactionView) : Prop :=
  tx_date (tv_transaction y) <= tx_date (tv_transaction x).

Global Instance newer_first_dec x y : Decision (newer_first x y).
Proof. unfold newer_first. apply _. Defined.

Definition getUserTransactions (userId : Z) (filters : option TransactionFilters)
  : Async (list TransactionView) :=
  read (fun db =>
    merge_sort newer_first
      (omap (join_transaction userId filters db) (map_to_list (transactions db)))).

(** ** Budgets *)

(** [budgets]; the table takes no part in the ledger and is handed to the
    query that reads it. *)
Record Budget := mkBudget {
  b_amount : Z;
  b_month : Z;
  b_year : Z;
  b_categoryId : Z;
  b_userId : Z
}.

Record BudgetView := mkBudgetView {
  bv_id : Z;
  bv_budget : Budget;
  bv_category : Category
}.

Definition join_budget (userId : Z) (month year : option Z) (db : Db)
    (row : Z * Budget) : option BudgetView :=
  let b := snd row in
  match categories db !! b_categoryId b with
  | Some c =>
      let wanted :=
        match month, year with
        | Some m, Some y =>
            bool_decide (b_userId b = userId /\ b_month b = m /\ b_year b = y)
        | _, _ => bool_decide (b_userId b = userId)
        end in
      if wanted then Some (mkBudgetView (fst row) b c) else None
  | None => None
  end.

(** [getUserBudgets(userId, month?, year?)]: the month and the year filter
    only when both are given. *)
Definition getUserBudgets (budgets : gmap Z Budget) (userId : Z) (month year : option Z)
  : Async (list BudgetView) :=
  read (fun db => omap (join_budget userId month year db) (map_to_list budgets)).

(** ** The dashboard *)

(** [new Date(year, month, date)]: midnight of the day; a year from 0 to 99
    is taken in the twentieth century. *)
Definition DateOf (year month date : Z) : Z :=
  let yr := if (0 <=? year) && (year <=? 99) then 1900 + year else year in
  MakeDate (MakeDay yr month date) 0.

Definition startOfMonth (now : Z) : Z := DateOf (getFullYear now) (getMonth now) 1.
Definition endOfMonth (now : Z) : Z := DateOf (getFullYear now) (getMonth now + 1) 0.

(** The query [monthlyTransactions] of [getDashboardData], from which the
    monthly income, the monthly expenses and the budget progress are
    summed. *)
Definition monthlyTransactions (now userId : Z) : Async (list (Z * Transaction)) :=
  read (fun db =>
    filter (fun row => tx_userId (snd row) = userId
                       /\ startOfMonth now <= tx_date (snd row)
                       /\ tx_date (snd row) <= endOfMonth now)
           (map_to_list (transactions db))).

(** [recentTransactions.slice(0, 5)] of [getDashboardData]. *)
Definition recentTransactions (userId : Z) : Async (list TransactionView) :=
  let! all := getUserTransactions userId None in
  resolve (take 5 all).

(** ** Recurring definitions *)

(** [Partial<InsertRecurringTransaction>] *)
Record RecurringPatch := mkRecurringPatch {
  rp_amount : option Z;
  rp_description : option string;
  rp_type : option TransactionType;
  rp_frequency : option Frequency;
  rp_nextRunDate : option Z;
  rp_accountId : option Z;
  rp_categoryId : option Z;
  rp_isActive : option bool
}.

Definition apply_recurring_patch (p : RecurringPatch) (r : RecurringTransaction)
  : RecurringTransaction :=
  mkRecurring
    (default (rt_amount r) (rp_amount p))
    (default (rt_description r) (rp_description p))
    (default (rt_type r) (rp_type p))
    (default (rt_frequency r) (rp_frequency p))
    (default (rt_nextRunDate r) (rp_nextRunDate p))
    (default (rt_accountId r) (rp_accountId p))
    (default (rt_categoryId r) (rp_categoryId p))
    (rt_userId r)
    (default (rt_isActive r) (rp_isActive p)).

Definition recurring_patch_sets_a_column (p : RecurringPatch) : bool :=
  bool_decide (is_Some (rp_amount p)) || bool_decide (is_Some (rp_description p))
  || bool_decide (is_Some (rp_type p)) || bool_decide (is_Some (rp_frequency p))
  || bool_decide (is_Some (rp_nextRunDate p)) || bool_decide (is_Some (rp_accountId p))
  || bool_decide (is_Some (rp_categoryId p)) || bool_decide (is_Some (rp_isActive p)).

Definition owned_recurring (id userId : Z) (db : Db) : option RecurringTransaction :=
  match recurringTransactions db !! id with
  | Some r => if bool_decide (rt_userId r = userId) then Some r else None
  | None => None
  end.

Definition getRecurringTransaction (id userId : Z) : Async (option RecurringTransaction) :=
  read (owned_recurring id userId).

(** [updateRecurringTransaction] with any patch. *)
Definition updateRecurringTransactionWith (id userId : Z) (p : RecurringPatch)
  : Async (option RecurringTransaction) :=
  check (recurring_patch_sets_a_column p) NoValuesToSet ;;
  let! matched := read (owned_recurring id userId) in
  match matched with
  | None => resolve None
  | Some r =>
      let new := apply_recurring_patch p r in
      check (from_option decimal_12_2 true (rp_amount p)) NumericFieldOverflow ;;
      let! ok := read (fun db =>
        (bool_decide (rt_accountId new = rt_accountId r)
         || bool_decide (is_Some (accounts db !! rt_accountId new)))
        && (bool_decide (rt_categoryId new = rt_categoryId r)
            || bool_decide (is_Some (categories db !! rt_categoryId new)))) in
      check ok ForeignKeyViolation ;;
      write (fun db => set_recurringTransactions
               (<[id := new]> (recurringTransactions db)) db) ;;
      resolve (Some new)
  end.

Definition deleteRecurringTransaction (id userId : Z) : Async unit :=
  let! matched := read (owned_recurring id userId) in
  match matched with
  | None => resolve tt
  | Some _ =>
      write (fun db => set_recurringTransactions (delete id (recurringTransactions db)) db)
  end.

(** The rows of [getUserRecurringTransactions]: the definitions of the user
    with their joined account and category, due or not. *)
Definition getUserRecurringTransactions (userId : Z) : Async (list DueRecurring) :=
  read (fun db =>
    omap (fun row : Z * RecurringTransaction =>
            let r := snd row in
            match accounts db !! rt_accountId r, categories db !! rt_categoryId r with
            | Some a, Some c =>
                if bool_decide (rt_userId r = userId)
                then Some (mkDue (fst row) r a c) else None
            | _, _ => None
            end)
         (map_to_list (recurringTransactions db))).

(** ** What a mutation may change *)

(** [db'] differs from [db] in nothing but balances, the table of
    transactions and its sequence. *)
Definition balances_only (db db' : Db) : Prop :=
  users db' = users db
  /\ categories db' = categories db
  /\ recurringTransactions db' = recurringTransactions db
  /\ forall a,
       match accounts db !! a, accounts db' !! a with
       | Some x, Some y =>
           acc_name y = acc_name x /\ acc_type y = acc_type x /\ acc_userId y = acc_userId x
       | None, None => True
       | _, _ => False
       end.

(** The rows of [transactions] after a call: untouched, or with the one row
    the call inserted, replaced or removed. *)
Inductive rows_step (db db' : Db) : Prop :=
  | rows_same :
      transactions db' = transactions db -> rows_step db db'
  | rows_inserted v :
      transactions db !! transactions_id_seq db = None ->
      references_ok v db = true ->
      transactions db' = <[transactions_id_seq db := v]> (transactions db) ->
      transactions_id_seq db' = transactions_id_seq db + 1 ->
      rows_step db db'
  | rows_replaced id old new :
      transactions db !! id = Some old ->
      patch_references_ok old new db = true ->
      transactions db' = <[id := new]> (transactions db) ->
      rows_step db db'
  | rows_removed id :
      transactions db' = delete id (transactions db) -> rows_step db db'.

Ltac storage_unfold :=
  unfold updateAccount, deleteAccount, getAccount, owned_account,
    updateRecurringTransactionWith, deleteRecurringTransaction, owned_recurring,
    updateRecurringTransaction, check, await, read, write, resolve, throw in *.

(** ** Editing a transaction back *)

(** The body of a [PUT /api/transactions/:id] that carries every column of
    [t]; [insertTransactionSchema.partial()] accepts it. *)
Definition full_patch (t : Transaction) : TransactionPatch :=
  mkPatch (Some (tx_amount t)) (Some (tx_date t)) (Some (tx_description t))
          (Some (tx_type t)) (Some (tx_accountId t)) (Some (tx_categoryId t)).

(** * Properties *)

(** ** Running the monad *)

Lemma await_Fulfilled {A B} (m : Async A) (k : A -> Async B) db b db2 :
  await m k db = (Fulfilled b, db2) <->
  exists a db1, m db = (Fulfilled a, db1) /\ k a db1 = (Fulfilled b, db2).
Proof.
  unfold await. split.
  - destruct (m db) as [[a|e] db1]; [eauto | discriminate].
  - intros (a & db1 & -> & H). exact H.
Qed.

Lemma alter_lookup_Some {A} (f : A -> A) (m : gmap Z A) i x :
  m !! i = Some x -> alter f i m = <[i := f x]> m.
Proof.
  intros H. apply map_eq. intros j. rewrite lookup_alter, lookup_insert.
  repeat case_decide; subst; try congruence. by rewrite H.
Qed.

(** ** Sums over the table of transactions *)

Section sums.
Variable f : Transaction -> Z.

Lemma sum_over_empty : sum_over f ∅ = 0.
Proof. unfold sum_over. by rewrite map_fold_empty. Qed.

Lemma sum_over_insert m i t :
  m !! i = None -> sum_over f (<[i := t]> m) = sum_over f m + f t.
Proof.
  intros H. unfold sum_over. rewrite map_fold_insert_L; [done | | done].
  intros. lia.
Qed.

Lemma sum_over_delete m i t :
  m !! i = Some t -> sum_over f (delete i m) = sum_over f m - f t.
Proof.
  intros H. rewrite <- (insert_delete_id m i t H) at 2.
  rewrite sum_over_insert by apply lookup_delete_eq. lia.
Qed.

Lemma sum_over_update m i t t' :
  m !! i = Some t -> sum_over f (<[i := t']> m) = sum_over f m - f t + f t'.
Proof.
  intros H. rewrite <- insert_delete_eq.
  rewrite sum_over_insert by apply lookup_delete_eq.
  by rewrite (sum_over_delete m i t).
Qed.

Lemma sum_over_zero m :
  (forall i t, m !! i = Some t -> f t = 0) -> sum_over f m = 0.
Proof.
  unfold sum_over.
  apply (map_fold_weak_ind
           (fun r m' => (forall i t, m' !! i = Some t -> f t = 0) -> r = 0)).
  - done.
  - intros i t m' r Hfresh IH Hall.
    rewrite IH.
    + rewrite (Hall i t); [done | apply lookup_insert_eq].
    + intros j t' Hj. apply (Hall j t').
      rewrite lookup_insert_ne; [done | congruence].
Qed.
End sums.

(** ** What a completed mutation has done *)

Lemma createTransaction_Fulfilled v db r db' :
  createTransaction v db = (Fulfilled r, db') ->
  exists acc,
    r = (transactions_id_seq db, v)
    /\ decimal_12_2 (tx_amount v) = true
    /\ transactions db !! transactions_id_seq db = None
    /\ references_ok v db = true
    /\ accounts db !! tx_accountId v = Some acc
    /\ decimal_12_2 (acc_balance acc + balanceChange v) = true
    /\ db' = mkDb (users db)
               (<[tx_accountId v := with_balance (acc_balance acc + balanceChange v) acc]>
                  (accounts db))
               (categories db)
               (<[transactions_id_seq db := v]> (transactions db))
               (recurringTransactions db)
               (transactions_id_seq db + 1).
Proof.
  async_unfold. cbn. intros H. async_cases.
  match goal with H : accounts _ !! _ = Some ?a |- _ => exists a end.
  reflect_bools. repeat split; try done.
  unfold set_accounts, set_transactions; cbn.
  f_equal. by apply alter_lookup_Some.
Qed.

Lemma deleteTransaction_Fulfilled id userId db u db' :
  deleteTransaction id userId db = (Fulfilled u, db') ->
  exists t acc,
    transactions db !! id = Some t
    /\ tx_userId t = userId
    /\ accounts db !! tx_accountId t = Some acc
    /\ decimal_12_2 (acc_balance acc - balanceChange t) = true
    /\ db' = mkDb (users db)
               (<[tx_accountId t := with_balance (acc_balance acc - balanceChange t) acc]>
                  (accounts db))
               (categories db)
               (delete id (transactions db))
               (recurringTransactions db)
               (transactions_id_seq db).
Proof.
  async_unfold. cbn. intros H. async_cases.
  match goal with H : transactions _ !! _ = Some ?t, H' : accounts _ !! _ = Some ?a |- _ =>
    exists t, a;
    replace (acc_balance a - balanceChange t) with (acc_balance a + - balanceChange t) by lia
  end.
  reflect_bools. repeat split; try done.
  unfold set_accounts, set_transactions; cbn. f_equal. by apply alter_lookup_Some.
Qed.

Lemma updateTransaction_Fulfilled id userId p db t' db' :
  updateTransaction id userId p db = (Fulfilled t', db') ->
  exists old acc1 acc2,
    let reverted :=
      <[tx_accountId old := with_balance (acc_balance acc1 - balanceChange old) acc1]>
        (accounts db) in
    transactions db !! id = Some old
    /\ tx_userId old = userId
    /\ t' = apply_patch p old
    /\ accounts db !! tx_accountId old = Some acc1
    /\ decimal_12_2 (acc_balance acc1 - balanceChange old) = true
    /\ reverted !! tx_accountId t' = Some acc2
    /\ decimal_12_2 (acc_balance acc2 + balanceChange t') = true
    /\ db' = mkDb (users db)
               (<[tx_accountId t' := with_balance (acc_balance acc2 + balanceChange t') acc2]>
                  reverted)
               (categories db)
               (<[id := t']> (transactions db))
               (recurringTransactions db)
               (transactions_id_seq db).
Proof.
  async_unfold. cbn. intros H. async_cases.
  match goal with
  | Ht : transactions _ !! _ = Some ?t, Ha : accounts _ !! tx_accountId ?t = Some ?a,
    Hb : alter _ _ _ !! _ = Some ?b |- _ =>
      exists t, a, b;
      rewrite (alter_lookup_Some _ _ _ _ Ha) in Hb |- *;
      rewrite (alter_lookup_Some _ _ _ _ Hb);
      replace (acc_balance a + - balanceChange t) with (acc_balance a - balanceChange t)
        in * by lia
  end.
  reflect_bools. cbn. repeat split; done.
Qed.

(** ** The balance invariant *)

(** The signed sum of the transactions that reference account [a]. *)
Lemma signed_contribution a t :
  incomeOf a t - expenseOf a t =
  if bool_decide (tx_accountId t = a) then balanceChange t else 0.
Proof.
  unfold incomeOf, expenseOf, balanceChange.
  case_bool_decide; destruct (tx_type t); lia.
Qed.

Lemma tracks_refl db : tracks db db.
Proof. intros a b ->. f_equal. lia. Qed.

Lemma tracks_trans db1 db2 db3 : tracks db1 db2 -> tracks db2 db3 -> tracks db1 db3.
Proof.
  intros H12 H23 a b Hb.
  rewrite (H23 a _ (H12 a b Hb)). f_equal. lia.
Qed.

Lemma createTransaction_tracks v db r db' :
  createTransaction v db = (Fulfilled r, db') -> tracks db db'.
Proof.
  intros (acc & -> & _ & Hfresh & _ & Hacc & _ & ->)%createTransaction_Fulfilled a b.
  unfold balanceOf, incomeTotal, expenseTotal. cbn.
  rewrite !sum_over_insert by done.
  pose proof (signed_contribution a v) as Hs.
  destruct (decide (tx_accountId v = a)) as [<- | Hne].
  - rewrite bool_decide_eq_true_2 in Hs by done.
    rewrite lookup_insert_eq, Hacc. cbn. intros [= <-]. f_equal. lia.
  - rewrite bool_decide_eq_false_2 in Hs by done.
    rewrite lookup_insert_ne by done. intros ->. f_equal. lia.
Qed.

Lemma deleteTransaction_tracks id userId db u db' :
  deleteTransaction id userId db = (Fulfilled u, db') -> tracks db db'.
Proof.
  intros (t & acc & Ht & _ & Hacc & _ & ->)%deleteTransaction_Fulfilled a b.
  unfold balanceOf, incomeTotal, expenseTotal. cbn.
  rewrite !(sum_over_delete _ _ _ _ Ht).
  pose proof (signed_contribution a t) as Hs.
  destruct (decide (tx_accountId t = a)) as [<- | Hne].
  - rewrite bool_decide_eq_true_2 in Hs by done.
    rewrite lookup_insert_eq, Hacc. cbn. intros [= <-]. f_equal. lia.
  - rewrite bool_decide_eq_false_2 in Hs by done.
    rewrite lookup_insert_ne by done. intros ->. f_equal. lia.
Qed.

Lemma updateTransaction_tracks id userId p db t' db' :
  updateTransaction id userId p db = (Fulfilled t', db') -> tracks db db'.
Proof.
  intros (old & acc1 & acc2 & Hold & _ & _ & Hacc1 & _ & Hacc2 & _ & ->)
    %updateTransaction_Fulfilled a b.
  rename t' into new.
  unfold balanceOf, incomeTotal, expenseTotal. cbn.
  rewrite !(sum_over_update _ _ _ _ _ Hold).
  pose proof (signed_contribution a old) as Hs.
  pose proof (signed_contribution a new) as Hs'.
  destruct (decide (tx_accountId old = a)) as [Hold_a | Hold_a];
    [rewrite bool_decide_eq_true_2 in Hs by done
    | rewrite bool_decide_eq_false_2 in Hs by done];
  (destruct (decide (tx_accountId new = a)) as [Hnew_a | Hnew_a];
    [rewrite bool_decide_eq_true_2 in Hs' by done
    | rewrite bool_decide_eq_false_2 in Hs' by done]).
  - rewrite Hnew_a, Hold_a in *. rewrite lookup_insert_eq in Hacc2.
    injection Hacc2 as <-.
    rewrite lookup_insert_eq, Hacc1. cbn. intros [= <-]. f_equal. lia.
  - rewrite Hold_a in *.
    rewrite lookup_insert_ne, lookup_insert_eq, Hacc1 by done.
    cbn. intros [= <-]. f_equal. lia.
  - rewrite Hnew_a in *. rewrite lookup_insert_ne in Hacc2 by done.
    rewrite lookup_insert_eq, Hacc2. cbn. intros [= <-]. f_equal. lia.
  - rewrite !lookup_insert_ne by done. intros ->. f_equal. lia.
Qed.

Lemma run_mutation_tracks m db u db' :
  run_mutation m db = (Fulfilled u, db') -> tracks db db'.
Proof.
  destruct m as [v | id userId p | id userId]; unfold run_mutation.
  - intros (r & db1 & H & [= _ <-])%await_Fulfilled. eauto using createTransaction_tracks.
  - intros (r & db1 & H & [= _ <-])%await_Fulfilled. eauto using updateTransaction_tracks.
  - intros H. exact (deleteTransaction_tracks _ _ _ _ _ H).
Qed.

Lemma run_mutations_tracks ms db u db' :
  run_mutations ms db = (Fulfilled u, db') -> tracks db db'.
Proof.
  revert db. induction ms as [| m ms IH]; cbn; intros db.
  - intros [= _ <-]. apply tracks_refl.
  - intros (r & db1 & H1 & H2)%await_Fulfilled.
    eapply tracks_trans; eauto using run_mutation_tracks.
Qed.



(** ** Updating a transaction *)



(** ** Creating and deleting *)

Lemma with_balance_same acc : with_balance (acc_balance acc) acc = acc.
Proof. by destruct acc. Qed.

Lemma with_balance_twice b b' acc :
  with_balance b (with_balance b' acc) = with_balance b acc.
Proof. done. Qed.



(** Against C4 as the specification words it.  The insert of a creation can
    stay without its balance effect: on an account holding 9999999999.99, an
    income of 5000.00 is inserted, the balance write is rejected by the
    column, and the call throws with the row in place and the balance
    untouched.  And in every creation the row is in the table, with the
    balance still the old one, from the insert until the write two statements
    later. *)
Lemma createTransaction_insert_without_balance :
  (exists db',
     createTransaction (example_tx 500000 income 1 1) full_db
       = (Rejected NumericFieldOverflow, db')
     /\ transactions full_db !! 1 = None
     /\ transactions db' !! 1 = Some (example_tx 500000 income 1 1)
     /\ balanceOf db' 1 = balanceOf full_db 1)
  /\ (exists new db',
       step_call (AtInsert (example_tx 10000 income 1 1)) (example_db 0 0)
         = (AtSelect new, db')
       /\ transactions db' !! 1 = Some (example_tx 10000 income 1 1)
       /\ balanceOf db' 1 = Some 0).
Proof.
  split.
  - eexists. split; [vm_compute; reflexivity |]. repeat split.
  - eexists _, _. split; [vm_compute; reflexivity |]. repeat split.
Qed.

(** C4, as the code has it.  A completed [createTransaction] has stored the
    new row under a fresh id and has added the signed amount to the balance
    of the referenced account, and to no other.  A rejected call changes no
    balance; it leaves the table of transactions as it was when the insert
    is rejected, and leaves the inserted row behind when the balance write is
    rejected (the sum is outside [decimal(12,2)]): the two statements are
    not one database transaction. *)
Theorem createTransaction_effect (v : Transaction) (db : Db) :
  let id := transactions_id_seq db in
  match createTransaction v db with
  | (Fulfilled r, db') =>
      r = (id, v)
      /\ transactions db !! id = None
      /\ transactions db' = <[id := v]> (transactions db)
      /\ (exists b, balanceOf db (tx_accountId v) = Some b
                    /\ balanceOf db' (tx_accountId v) = Some (b + balanceChange v))
      /\ (forall a, a <> tx_accountId v -> balanceOf db' a = balanceOf db a)
  | (Rejected e, db') =>
      accounts db' = accounts db
      /\ (transactions db' = transactions db
          \/ (e = NumericFieldOverflow
              /\ transactions db !! id = None
              /\ transactions db' = <[id := v]> (transactions db)
              /\ exists b, balanceOf db (tx_accountId v) = Some b
                           /\ decimal_12_2 (b + balanceChange v) = false))
  end.
Proof.
  intros id. subst id.
  destruct (createTransaction v db) as [[r | e] db'] eqn:Hrun.
  - apply createTransaction_Fulfilled in Hrun
      as (acc & -> & _ & Hfresh & _ & Hacc & _ & ->).
    unfold balanceOf. cbn. repeat split; try done.
    + exists (acc_balance acc). by rewrite Hacc, lookup_insert_eq.
    + intros a Ha. by rewrite lookup_insert_ne.
  - revert Hrun. async_unfold. cbn. intros Hrun. async_cases; reflect_bools;
      (split; [done |]); try (by left).
    + right. repeat split; try done.
      match goal with Ha : accounts _ !! _ = Some ?a |- _ => exists (acc_balance a) end.
      unfold balanceOf.
      by match goal with Ha : accounts _ !! _ = Some _ |- _ => rewrite Ha end.
    + exfalso.
      match goal with Hr : references_ok _ _ = true |- _ =>
        unfold references_ok in Hr; cbn in Hr; reflect_bools end.
      match goal with Hs : is_Some _, Hn : _ = None |- _ =>
        rewrite Hn in Hs; by destruct Hs end.
Qed.





(** ** The calendar *)

(** [YearFromTime] is the year the standard defines: the largest [y] whose
    first day is not after the day of [t]. *)
Lemma YearFromTime_largest t :
  DayFromYear (YearFromTime t) <= Day t < DayFromYear (YearFromTime t + 1).
Proof.
  unfold YearFromTime. generalize (Day t). intros d.
  replace (DayFromYear 1601) with (-134774) by reflexivity.
  cbv zeta. unfold DayFromYear.
  Z.div_mod_to_equations; lia.
Qed.

(** The Gregorian leap rule, read off the three floors of [DayFromYear]. *)
Lemma leap_floors y :
  (if isLeapYear y then 1 else 0) =
  ((y - 1968) / 4 - (y - 1969) / 4) - ((y - 1900) / 100 - (y - 1901) / 100)
  + ((y - 1600) / 400 - (y - 1601) / 400).
Proof.
  unfold isLeapYear.
  assert (H4 : (y - 1968) / 4 - (y - 1969) / 4 = if y mod 4 =? 0 then 1 else 0).
  { destruct (Z.eqb_spec (y mod 4) 0); Z.div_mod_to_equations; lia. }
  assert (H100 : (y - 1900) / 100 - (y - 1901) / 100 = if y mod 100 =? 0 then 1 else 0).
  { destruct (Z.eqb_spec (y mod 100) 0); Z.div_mod_to_equations; lia. }
  assert (H400 : (y - 1600) / 400 - (y - 1601) / 400 = if y mod 400 =? 0 then 1 else 0).
  { destruct (Z.eqb_spec (y mod 400) 0); Z.div_mod_to_equations; lia. }
  rewrite H4, H100, H400.
  destruct (Z.eqb_spec (y mod 4) 0), (Z.eqb_spec (y mod 100) 0),
    (Z.eqb_spec (y mod 400) 0); cbn; try lia.
  all: Z.div_mod_to_equations; lia.
Qed.

Lemma DayFromYear_succ y : DayFromYear (y + 1) = DayFromYear y + DaysInYear y.
Proof.
  pose proof (leap_floors y) as H. unfold DayFromYear, DaysInYear.
  replace (y + 1 - 1970) with (y - 1970 + 1) by lia.
  replace (y + 1 - 1969) with (y - 1968) by lia.
  replace (y + 1 - 1901) with (y - 1900) by lia.
  replace (y + 1 - 1601) with (y - 1600) by lia.
  destruct (isLeapYear y); lia.
Qed.

Lemma DayFromYear_grows y n : 0 <= n -> DayFromYear y + 365 * n <= DayFromYear (y + n).
Proof.
  revert n. apply natlike_ind.
  - replace (y + 0) with y by lia. lia.
  - intros n Hn IH. replace (y + Z.succ n) with (y + n + 1) by lia.
    rewrite DayFromYear_succ. unfold DaysInYear. destruct (isLeapYear (y + n)); lia.
Qed.

Lemma DayFromYear_mono y1 y2 : y1 < y2 -> DayFromYear (y1 + 1) <= DayFromYear y2.
Proof.
  intros H. pose proof (DayFromYear_grows (y1 + 1) (y2 - (y1 + 1))) as Hg.
  replace (y1 + 1 + (y2 - (y1 + 1))) with y2 in Hg by lia. lia.
Qed.

Lemma YearFromTime_unique t y :
  DayFromYear y <= Day t < DayFromYear (y + 1) -> YearFromTime t = y.
Proof.
  intros Hy. pose proof (YearFromTime_largest t) as Ht.
  destruct (Z.lt_trichotomy (YearFromTime t) y) as [Hlt | [Heq | Hgt]]; [| done |].
  - pose proof (DayFromYear_mono _ _ Hlt). lia.
  - pose proof (DayFromYear_mono _ _ Hgt). lia.
Qed.

Lemma DayWithinYear_range t :
  0 <= DayWithinYear t < DaysInYear (YearFromTime t).
Proof.
  unfold DayWithinYear. pose proof (YearFromTime_largest t) as H.
  rewrite DayFromYear_succ in H. lia.
Qed.

Lemma monthOfDay_range d leap : 0 <= monthOfDay d leap <= 11.
Proof. unfold monthOfDay. repeat case_match; lia. Qed.

Lemma MonthFromTime_range t : 0 <= MonthFromTime t <= 11.
Proof. apply monthOfDay_range. Qed.

Lemma Day_MakeDate day time :
  0 <= time < msPerDay ->
  Day (MakeDate day time) = day /\ TimeWithinDay (MakeDate day time) = time.
Proof.
  unfold Day, TimeWithinDay, MakeDate, msPerDay. intros H.
  Z.div_mod_to_equations; lia.
Qed.

Lemma TimeWithinDay_range t : 0 <= TimeWithinDay t < msPerDay.
Proof. unfold TimeWithinDay, msPerDay. Z.div_mod_to_equations; lia. Qed.

(** [setDate] to the current day of the month plus [k] moves the time by
    [k] whole days, across the ends of months and years. *)
Lemma setDate_shift t k : setDate t (getDate t + k) = t + k * msPerDay.
Proof.
  unfold setDate, getDate, DateFromTime, MakeDay, InLeapYear, DayWithinYear.
  pose proof (MonthFromTime_range t) as Hm.
  rewrite (Z.div_small (MonthFromTime t) 12), (Z.mod_small (MonthFromTime t) 12) by lia.
  rewrite Z.add_0_r.
  unfold MakeDate, TimeWithinDay, Day, msPerDay.
  destruct (isLeapYear (YearFromTime t)); Z.div_mod_to_equations; lia.
Qed.

Lemma advance_daily t : advance daily t = t + msPerDay.
Proof. unfold advance. rewrite setDate_shift. lia. Qed.

Lemma advance_weekly t : advance weekly t = t + 7 * msPerDay.
Proof. unfold advance. by rewrite setDate_shift. Qed.

Lemma isLeapYear_DaysInYear y :
  DaysInYear y = 365 + (if isLeapYear y then 1 else 0).
Proof. unfold DaysInYear. by destruct (isLeapYear y). Qed.

Lemma DateFromTime_range t :
  1 <= DateFromTime t <= daysInMonth (MonthFromTime t) (YearFromTime t).
Proof.
  pose proof (DayWithinYear_range t) as Hd. rewrite isLeapYear_DaysInYear in Hd.
  unfold DateFromTime, MonthFromTime, InLeapYear, daysInMonth, monthOfDay.
  destruct (isLeapYear (YearFromTime t));
    repeat (match goal with |- context [?a <? ?b] => destruct (Z.ltb_spec a b) end;
            cbn [monthStart]); cbn; lia.
Qed.

(** The fields of the time made from a valid civil date are that date. *)
Lemma fields_of_MakeDay y m d time :
  0 <= m <= 11 -> 1 <= d <= daysInMonth m y -> 0 <= time < msPerDay ->
  let t := MakeDate (MakeDay y m d) time in
  YearFromTime t = y /\ MonthFromTime t = m /\ DateFromTime t = d
  /\ TimeWithinDay t = time.
Proof.
  intros Hm Hd Htime t.
  destruct (Day_MakeDate (MakeDay y m d) time Htime) as [Hday Hwithin]. fold t in Hday, Hwithin.
  assert (Hmake : MakeDay y m d
                  = DayFromYear y + monthStart m (if isLeapYear y then 1 else 0) + d - 1).
  { unfold MakeDay. rewrite (Z.div_small m 12), (Z.mod_small m 12) by lia.
    by rewrite Z.add_0_r. }
  assert (Hyear : YearFromTime t = y).
  { apply YearFromTime_unique. rewrite Hday, Hmake, DayFromYear_succ, isLeapYear_DaysInYear.
    revert Hd. unfold daysInMonth. month_cases m; destruct (isLeapYear y); cbn; lia. }
  assert (Hwy : DayWithinYear t = monthStart m (if isLeapYear y then 1 else 0) + d - 1).
  { unfold DayWithinYear. rewrite Hyear, Hday, Hmake. lia. }
  assert (Hmonth : MonthFromTime t = m).
  { unfold MonthFromTime, InLeapYear. rewrite Hwy, Hyear.
    revert Hd. unfold daysInMonth, monthOfDay.
    month_cases m; destruct (isLeapYear y); cbn [monthStart]; intros Hd;
      repeat (match goal with |- context [?a <? ?b] => destruct (Z.ltb_spec a b) end);
      lia. }
  repeat split; try done.
  unfold DateFromTime, InLeapYear. rewrite Hmonth, Hwy, Hyear. lia.
Qed.

(** A day of the month past the end of the month counts on into the next
    month. *)
Lemma MakeDay_past_end y m d :
  0 <= m <= 10 -> MakeDay y m d = MakeDay y (m + 1) (d - daysInMonth m y).
Proof.
  intros Hm. unfold MakeDay.
  rewrite (Z.div_small m 12), (Z.mod_small m 12),
          (Z.div_small (m + 1) 12), (Z.mod_small (m + 1) 12) by lia.
  rewrite Z.add_0_r. unfold daysInMonth.
  month_cases m; destruct (isLeapYear y); eval_monthStart; lia.
Qed.

(** The monthly step: the time of day and the day of the month are kept and
    the month is the next one, when it has that day; when it does not, the
    date runs past its end into the month after it. *)
Lemma advance_monthly_fields t :
  let ym := YearFromTime t + (MonthFromTime t + 1) / 12 in
  let mn := (MonthFromTime t + 1) mod 12 in
  let d := DateFromTime t in
  let t' := advance monthly t in
  TimeWithinDay t' = TimeWithinDay t
  /\ YearFromTime t' = ym
  /\ (d <= daysInMonth mn ym -> MonthFromTime t' = mn /\ DateFromTime t' = d)
  /\ (daysInMonth mn ym < d ->
      MonthFromTime t' = mn + 1 /\ DateFromTime t' = d - daysInMonth mn ym).
Proof.
  intros ym mn d t'.
  pose proof (MonthFromTime_range t) as Hm.
  pose proof (DateFromTime_range t) as Hd. fold d in Hd.
  pose proof (TimeWithinDay_range t) as Htime.
  assert (Hmn : 0 <= mn <= 11) by (subst mn; Z.div_mod_to_equations; lia).
  assert (Hd31 : d <= 31).
  { revert Hd. unfold daysInMonth. repeat case_match; lia. }
  assert (Ht' : t' = MakeDate (MakeDay ym mn d) (TimeWithinDay t)).
  { subst t'. unfold advance, setMonth, getMonth. fold d. f_equal.
    unfold MakeDay. fold ym mn.
    rewrite (Z.div_small mn 12), (Z.mod_small mn 12) by lia. by rewrite Z.add_0_r. }
  clearbody ym mn d t'.
  destruct (Z.le_gt_cases d (daysInMonth mn ym)) as [Hfits | Hpast].
  - destruct (fields_of_MakeDay ym mn d (TimeWithinDay t)) as (Hy & Hmo & Hda & Hti);
      [lia | lia | lia |].
    rewrite <- Ht' in Hy, Hmo, Hda, Hti. repeat split; try done; lia.
  - assert (Hmn10 : mn <= 10).
    { destruct (decide (mn = 11)) as [-> |]; [cbn in Hpast; lia | lia]. }
    rewrite MakeDay_past_end in Ht' by lia.
    destruct (fields_of_MakeDay ym (mn + 1) (d - daysInMonth mn ym) (TimeWithinDay t))
      as (Hy & Hmo & Hda & Hti); [lia | | lia |].
    { revert Hpast. unfold daysInMonth.
      month_cases mn; eval_const_add; destruct (isLeapYear ym); lia. }
    rewrite <- Ht' in Hy, Hmo, Hda, Hti. repeat split; try done; lia.
Qed.

(** Every step of a schedule moves the date forward. *)
Lemma advance_increasing frequency t : t < advance frequency t.
Proof.
  destruct frequency.
  - rewrite advance_daily. unfold msPerDay. lia.
  - rewrite advance_weekly. unfold msPerDay. lia.
  - pose proof (MonthFromTime_range t) as Hm.
    pose proof (TimeWithinDay_range t) as Htime.
    unfold advance, setMonth, getMonth, MakeDate.
    assert (Hday : Day t < MakeDay (YearFromTime t) (MonthFromTime t + 1) (DateFromTime t)).
    { unfold MakeDay, DateFromTime, DayWithinYear, InLeapYear.
      destruct (decide (MonthFromTime t = 11)) as [-> | Hne].
      - change ((11 + 1) / 12) with 1. change ((11 + 1) mod 12) with 0.
        rewrite DayFromYear_succ, isLeapYear_DaysInYear.
        destruct (isLeapYear (YearFromTime t)), (isLeapYear (YearFromTime t + 1)); cbn; lia.
      - rewrite (Z.div_small (MonthFromTime t + 1) 12),
                (Z.mod_small (MonthFromTime t + 1) 12) by lia.
        rewrite Z.add_0_r.
        generalize (MonthFromTime t) Hm Hne. intros m Hm' Hne'.
        month_cases m; eval_const_add; try done;
          destruct (isLeapYear (YearFromTime t)); eval_monthStart; lia. }
    revert Hday Htime. unfold Day, TimeWithinDay, msPerDay.
    generalize (MakeDay (YearFromTime t) (MonthFromTime t + 1) (DateFromTime t)).
    intros day Hday Htime. Z.div_mod_to_equations; lia.
Qed.

Lemma scheduleDate_ge frequency next j : next <= scheduleDate frequency next j.
Proof.
  unfold scheduleDate. induction j as [| j IH]; [cbn; lia |].
  rewrite Nat.iter_succ.
  pose proof (advance_increasing frequency (Nat.iter j (advance frequency) next)). lia.
Qed.

Lemma boundariesCrossed_shift k frequency next now :
  boundariesCrossed (S k) frequency next now
  = ((if (next <=? now)%Z then 1 else 0)
     + boundariesCrossed k frequency (advance frequency next) now)%nat.
Proof.
  induction k as [| k IH].
  - cbn. lia.
  - change (boundariesCrossed (S (S k)) frequency next now)
      with (boundariesCrossed (S k) frequency next now
            + if (scheduleDate frequency next (S k) <=? now)%Z then 1 else 0)%nat.
    rewrite IH. cbn [boundariesCrossed].
    unfold scheduleDate. rewrite Nat.iter_succ_r. lia.
Qed.

Lemma boundariesCrossed_none k frequency next now :
  now < next -> boundariesCrossed k frequency next now = 0%nat.
Proof.
  intros H. induction k as [| k IH]; [done |].
  cbn. rewrite IH. pose proof (scheduleDate_ge frequency next k).
  by destruct (Z.leb_spec (scheduleDate frequency next k) now); [lia |].
Qed.

Lemma reachedDates_boundariesCrossed k frequency now : forall next,
  reachedDates k frequency next now = boundariesCrossed k frequency next now.
Proof.
  induction k as [| k IH]; intros next; [done |].
  rewrite boundariesCrossed_shift. cbn.
  destruct (Z.leb_spec next now) as [Hle | Hgt].
  - by rewrite IH.
  - rewrite boundariesCrossed_none; [done |].
    pose proof (advance_increasing frequency next). lia.
Qed.

(** ** The due list *)

Lemma elem_of_dueList now db d :
  d ∈ dueList now db <->
  recurringTransactions db !! due_id d = Some (due_recurring d)
  /\ accounts db !! rt_accountId (due_recurring d) = Some (due_account d)
  /\ categories db !! rt_categoryId (due_recurring d) = Some (due_category d)
  /\ rt_isActive (due_recurring d) = true
  /\ rt_nextRunDate (due_recurring d) <= now.
Proof.
  unfold dueList. rewrite list_elem_of_omap. split.
  - intros ([id r] & Hin%elem_of_map_to_list & Hjoin).
    unfold join_due in Hjoin. cbn in Hjoin.
    destruct (accounts db !! rt_accountId r) as [a |] eqn:Ha; [| done].
    destruct (categories db !! rt_categoryId r) as [c |] eqn:Hc; [| done].
    destruct (rt_isActive r) eqn:Hactive; [| done].
    destruct (Z.leb_spec (rt_nextRunDate r) now); [| done].
    cbn in Hjoin. injection Hjoin as <-. cbn. done.
  - intros (Hr & Ha & Hc & Hactive & Hdate). destruct d as [id r a c]. cbn in *.
    exists (id, r). split; [by apply elem_of_map_to_list |].
    unfold join_due. cbn. rewrite Ha, Hc, Hactive.
    by destruct (Z.leb_spec (rt_nextRunDate r) now); [| lia].
Qed.

Lemma join_due_id now db row d : join_due now db row = Some d -> due_id d = fst row.
Proof. unfold join_due. intros H. repeat case_match; by simplify_eq. Qed.

Lemma NoDup_dueList now db : NoDup (due_id <$> dueList now db).
Proof.
  unfold dueList. pose proof (NoDup_fst_map_to_list (recurringTransactions db)) as Hnd.
  induction (map_to_list (recurringTransactions db)) as [| row l IH]; cbn.
  - constructor.
  - apply NoDup_cons in Hnd as [Hrow Hnd]. specialize (IH Hnd).
    destruct (join_due now db row) as [d |] eqn:Hjoin; [| done].
    cbn. apply NoDup_cons. split; [| done].
    intros (d' & Heq & (row' & Hin' & Hjoin')%list_elem_of_omap)%list_elem_of_fmap.
    apply Hrow. apply list_elem_of_fmap. exists row'. split; [| done].
    apply join_due_id in Hjoin, Hjoin'. congruence.
Qed.

Lemma generatedFor_le_1 id now db : (generatedFor id now db <= 1)%nat.
Proof.
  unfold generatedFor. pose proof (NoDup_dueList now db) as Hnd.
  induction (dueList now db) as [| d l IH]; [cbn; lia |].
  rewrite fmap_cons in Hnd. apply NoDup_cons in Hnd as [Hd Hnd]. specialize (IH Hnd).
  rewrite filter_cons. case_decide as Hid; [| done].
  destruct (filter (fun d0 => due_id d0 = id) l) as [| d' l'] eqn:Hf; [cbn; lia |].
  exfalso. apply Hd.
  assert (d' ∈ filter (fun d0 => due_id d0 = id) l) as [Hid' Hin]%list_elem_of_filter
    by (rewrite Hf; by left).
  apply list_elem_of_fmap. exists d'. split; [congruence | done].
Qed.

Lemma generatedFor_1 id now db :
  generatedFor id now db = 1%nat <-> exists d, d ∈ dueList now db /\ due_id d = id.
Proof.
  unfold generatedFor. split.
  - intros H. destruct (filter _ _) as [| d l] eqn:Hf; [done |].
    exists d.
    assert (d ∈ filter (fun d => due_id d = id) (dueList now db))
      as [Hid Hin]%list_elem_of_filter by (rewrite Hf; by left).
    done.
  - intros (d & Hin & Hid). pose proof (generatedFor_le_1 id now db) as Hle.
    unfold generatedFor in Hle.
    assert (d ∈ filter (fun d => due_id d = id) (dueList now db)) as Hf
      by by apply list_elem_of_filter.
    destruct (filter _ _); [by apply elem_of_nil in Hf | cbn in *; lia].
Qed.

(** ** One pass of the scheduler *)

Lemma createTransaction_frame v db out db' :
  createTransaction v db = (out, db') ->
  users db' = users db
  /\ categories db' = categories db
  /\ recurringTransactions db' = recurringTransactions db
  /\ forall a, is_Some (accounts db' !! a) <-> is_Some (accounts db !! a).
Proof.
  async_unfold. cbn. intros H. async_cases; cbn; repeat split; try done;
    intros Hs; by apply lookup_alter_is_Some in Hs || apply lookup_alter_is_Some.
Qed.

Lemma generate_one_Fulfilled now d db tx db' :
  recurringTransactions db !! due_id d = Some (due_recurring d) ->
  generate_one now d db = (Fulfilled tx, db') ->
  let r := due_recurring d in
  exists db1,
    createTransaction (materialize now r) db = (Fulfilled tx, db1)
    /\ db' = set_recurringTransactions
               (<[due_id d := with_nextRunDate (advance (rt_frequency r) (rt_nextRunDate r)) r]>
                  (recurringTransactions db)) db1.
Proof.
  intros Hrow. unfold generate_one.
  intros (tx' & db1 & Hcreate & Hrest)%await_Fulfilled. cbn.
  destruct (createTransaction_frame _ _ _ _ Hcreate) as (_ & _ & Hrec & _).
  revert Hrest. unfold updateRecurringTransaction, await, read, write, resolve. cbn.
  rewrite Hrec, Hrow. rewrite bool_decide_eq_true_2 by done. cbn.
  intros [= <- <-]. exists db1. by rewrite Hrec.
Qed.

Lemma generate_one_Rejected now d db e db' :
  generate_one now d db = (Rejected e, db') ->
  createTransaction (materialize now (due_recurring d)) db = (Rejected e, db').
Proof.
  unfold generate_one, await at 1.
  destruct (createTransaction _ db) as [[tx | e'] db1]; [| by intros [= <- <-]].
  unfold updateRecurringTransaction, await, read, write, resolve. cbn.
  intros H. async_cases.
Qed.

Lemma advanced_cons d due m :
  advanced (d :: due) m
  = advanced due
      (<[due_id d := with_nextRunDate
                       (advance (rt_frequency (due_recurring d))
                                (rt_nextRunDate (due_recurring d)))
                       (due_recurring d)]> m).
Proof. done. Qed.

Lemma advanced_lookup_notin due m id :
  id ∉ due_id <$> due -> advanced due m !! id = m !! id.
Proof.
  revert m. induction due as [| d due IH]; intros m Hid; [done |].
  rewrite fmap_cons, not_elem_of_cons in Hid. destruct Hid as [Hne Hid].
  rewrite advanced_cons, IH by done. by rewrite lookup_insert_ne.
Qed.

Lemma advanced_lookup_in due m d :
  NoDup (due_id <$> due) -> d ∈ due ->
  advanced due m !! due_id d
  = Some (with_nextRunDate
            (advance (rt_frequency (due_recurring d)) (rt_nextRunDate (due_recurring d)))
            (due_recurring d)).
Proof.
  revert m. induction due as [| d0 due IH]; intros m Hnd Hin; [by apply elem_of_nil in Hin |].
  rewrite fmap_cons in Hnd. apply NoDup_cons in Hnd as [Hd0 Hnd].
  rewrite advanced_cons. apply elem_of_cons in Hin as [-> | Hin].
  - rewrite advanced_lookup_notin by done. apply lookup_insert_eq.
  - by apply IH.
Qed.

Lemma generate_loop_Fulfilled now due :
  forall gen db txs db',
    NoDup (due_id <$> due) ->
    (forall d, d ∈ due -> recurringTransactions db !! due_id d = Some (due_recurring d)) ->
    generate_loop now due gen db = (Fulfilled txs, db') ->
    exists new,
      txs = gen ++ new
      /\ Forall2 (materialized now) due new
      /\ recurringTransactions db' = advanced due (recurringTransactions db)
      /\ categories db' = categories db
      /\ (forall a, is_Some (accounts db' !! a) <-> is_Some (accounts db !! a))
      /\ size (transactions db') = (size (transactions db) + length due)%nat.
Proof.
  induction due as [| d due IH]; intros gen db txs db' Hnd Hrows; cbn.
  - intros [= <- <-]. exists []. rewrite app_nil_r. repeat split; try done.
    all: try constructor; cbn; lia.
  - rewrite fmap_cons in Hnd. apply NoDup_cons in Hnd as [Hd Hnd].
    intros (tx & db1 & Hone & Hloop)%await_Fulfilled.
    apply generate_one_Fulfilled in Hone as (db0 & Hcreate & ->);
      [| apply Hrows; by left].
    destruct (createTransaction_frame _ _ _ _ Hcreate) as (_ & Hcat & Hrec & Hacc).
    apply createTransaction_Fulfilled in Hcreate
      as (acc & -> & _ & Hfresh & _ & _ & _ & Hdb0).
    apply IH in Hloop as (new & -> & Hall & Hrec' & Hcat' & Hacc' & Hsize); [| done |].
    + exists ((transactions_id_seq db, materialize now (due_recurring d)) :: new).
      rewrite <- app_assoc. cbn in *. split_and!; try done.
      * by constructor.
      * congruence.
      * intros k. by rewrite Hacc', Hacc.
      * rewrite Hsize, Hdb0. cbn. rewrite map_size_insert_None by done. lia.
    + intros d' Hd'. cbn. rewrite lookup_insert_ne.
      * apply Hrows. by right.
      * intros Heq. apply Hd. apply list_elem_of_fmap. by exists d'.
Qed.

Lemma createTransaction_size v db out db' :
  createTransaction v db = (out, db') ->
  (size (transactions db') <= S (size (transactions db)))%nat.
Proof.
  async_unfold. cbn. intros H. async_cases; reflect_bools; cbn; try lia.
  all: rewrite map_size_insert_None by done; lia.
Qed.

Lemma generate_loop_Rejected now due :
  forall gen db e db',
    generate_loop now due gen db = (Rejected e, db') ->
    exists done failing rest txs db_mid,
      due = done ++ failing :: rest
      /\ generate_loop now done gen db = (Fulfilled txs, db_mid)
      /\ generate_one now failing db_mid = (Rejected e, db').
Proof.
  induction due as [| d due IH]; intros gen db e db'; [done |].
  cbn. unfold await at 1.
  destruct (generate_one now d db) as [[tx | e1] db1] eqn:Hone.
  - intros (done & failing & rest & txs & db_mid & -> & Hdone & Hfail)%IH.
    exists (d :: done), failing, rest, txs, db_mid. split_and!; try done.
    cbn. unfold await at 1. by rewrite Hone.
  - intros [= <- <-]. by exists [], d, due, gen, db.
Qed.

Lemma generate_Json200 now db n txs db' :
  generate now db = (Json200 n txs, db') ->
  n = length (dueList now db)
  /\ Forall2 (materialized now) (dueList now db) txs
  /\ recurringTransactions db' = advanced (dueList now db) (recurringTransactions db)
  /\ categories db' = categories db
  /\ (forall a, is_Some (accounts db' !! a) <-> is_Some (accounts db !! a))
  /\ size (transactions db') = (size (transactions db) + length (dueList now db))%nat.
Proof.
  unfold generate, getRecurringTransactionsDue, await at 1, read.
  destruct (generate_loop now (dueList now db) [] db) as [[txs' | e] db1] eqn:Hloop; [| done].
  intros [= <- <- <-].
  apply generate_loop_Fulfilled in Hloop as (new & -> & Hall & Hrec & Hcat & Hacc & Hsize).
  - cbn. split_and!; try done. symmetry. by eapply Forall2_length.
  - apply NoDup_dueList.
  - intros d Hd. by apply elem_of_dueList in Hd as (? & _).
Qed.

Lemma generate_Json500 now db msg db' :
  generate now db = (Json500 msg, db') ->
  msg = "Failed to generate recurring transactions"
  /\ exists done failing rest,
      dueList now db = done ++ failing :: rest
      /\ recurringTransactions db' = advanced done (recurringTransactions db)
      /\ (size (transactions db') <= size (transactions db) + length done + 1)%nat.
Proof.
  unfold generate, getRecurringTransactionsDue, await at 1, read.
  destruct (generate_loop now (dueList now db) [] db) as [[txs' | e] db1] eqn:Hloop; [done |].
  intros [= <- <-]. split; [done |].
  apply generate_loop_Rejected in Hloop
    as (done & failing & rest & txs & db_mid & Hdue & Hdone & Hfail).
  exists done, failing, rest. split; [done |].
  pose proof (NoDup_dueList now db) as Hnd. rewrite Hdue, fmap_app in Hnd.
  apply NoDup_app in Hnd as (Hnd & _ & _).
  apply generate_loop_Fulfilled in Hdone as (new & _ & _ & Hrec & _ & _ & Hsize);
    [| done |].
  - apply generate_one_Rejected in Hfail.
    destruct (createTransaction_frame _ _ _ _ Hfail) as (_ & _ & Hrec' & _).
    split; [congruence |].
    apply createTransaction_size in Hfail. lia.
  - intros d Hd. assert (d ∈ dueList now db) as Hin
      by (rewrite Hdue; apply elem_of_app; by left).
    by apply elem_of_dueList in Hin as (? & _).
Qed.

(** ** Which definitions a pass generates for *)

Lemma generatedFor_row id now db r :
  recurringTransactions db !! id = Some r ->
  generatedFor id now db
  = if eligible db r && (rt_nextRunDate r <=? now) then 1%nat else 0%nat.
Proof.
  intros Hrow. pose proof (generatedFor_le_1 id now db) as Hle.
  destruct (eligible db r && (rt_nextRunDate r <=? now)) eqn:Hcond.
  - apply generatedFor_1. unfold eligible in Hcond. reflect_bools.
    repeat match goal with H : is_Some _ |- _ => destruct H as [? H] end.
    match goal with
    | Ha : accounts db !! _ = Some ?a, Hc : categories db !! _ = Some ?c |- _ =>
        exists (mkDue id r a c)
    end.
    split; [| done]. apply elem_of_dueList. cbn. split_and!; try done. lia.
  - destruct (decide (generatedFor id now db = 1%nat)) as [H1 | H1]; [| lia].
    exfalso. apply generatedFor_1 in H1 as (d & Hin & <-).
    apply elem_of_dueList in Hin as (Hr & Ha & Hc & Hactive & Hdate).
    rewrite Hrow in Hr. injection Hr as ->.
    unfold eligible in Hcond. rewrite Hactive, Ha, Hc in Hcond.
    rewrite !bool_decide_eq_true_2 in Hcond by eauto. cbn in Hcond.
    apply Z.leb_gt in Hcond. lia.
Qed.

Lemma generatedFor_no_row id now db :
  recurringTransactions db !! id = None -> generatedFor id now db = 0%nat.
Proof.
  intros Hrow. pose proof (generatedFor_le_1 id now db) as Hle.
  destruct (decide (generatedFor id now db = 1%nat)) as [H1 | H1]; [| lia].
  apply generatedFor_1 in H1 as (d & Hin & <-).
  apply elem_of_dueList in Hin as (Hr & _). congruence.
Qed.

Lemma generate_eligible now db n txs db' r :
  generate now db = (Json200 n txs, db') -> eligible db' r = eligible db r.
Proof.
  intros (_ & _ & _ & Hcat & Hacc & _)%generate_Json200.
  unfold eligible. rewrite Hcat. f_equal. f_equal.
  apply bool_decide_ext, Hacc.
Qed.

Lemma generate_row now db n txs db' id r :
  generate now db = (Json200 n txs, db') ->
  recurringTransactions db !! id = Some r ->
  recurringTransactions db' !! id
  = Some (if eligible db r && (rt_nextRunDate r <=? now)
          then with_nextRunDate (advance (rt_frequency r) (rt_nextRunDate r)) r
          else r).
Proof.
  intros (_ & _ & -> & _)%generate_Json200 Hrow.
  pose proof (generatedFor_row id now db r Hrow) as Hgen.
  destruct (eligible db r && (rt_nextRunDate r <=? now)).
  - apply generatedFor_1 in Hgen as (d & Hin & <-).
    rewrite (advanced_lookup_in _ _ d) by (done || apply NoDup_dueList).
    apply elem_of_dueList in Hin as (Hr & _). rewrite Hrow in Hr. by injection Hr as ->.
  - rewrite advanced_lookup_notin; [done |].
    intros (d & -> & Hin)%list_elem_of_fmap.
    assert (generatedFor (due_id d) now db = 1%nat) by (apply generatedFor_1; eauto).
    lia.
Qed.

Lemma reachedDates_not_reached k frequency next now :
  now < next -> reachedDates k frequency next now = 0%nat.
Proof. intros H. destruct k; [done |]. cbn. by destruct (Z.leb_spec next now); [lia |]. Qed.

Lemma reachedDates_le k frequency next now : (reachedDates k frequency next now <= k)%nat.
Proof.
  revert next. induction k as [| k IH]; intros next; cbn; [lia |].
  destruct (next <=? now); [| lia]. specialize (IH (advance frequency next)). lia.
Qed.

Lemma generatedOver_reachedDates k : forall now db id r n,
  recurringTransactions db !! id = Some r ->
  generatedOver k id now db = Some n ->
  n = if eligible db r
      then reachedDates k (rt_frequency r) (rt_nextRunDate r) now
      else 0%nat.
Proof.
  induction k as [| k IH]; intros now db id r n Hrow; cbn.
  - intros [= <-]. by destruct (eligible db r).
  - destruct (generate now db) as [[m txs | msg] db1] eqn:Hpass; [| done].
    destruct (generatedOver k id now db1) as [n' |] eqn:Hrest; [| done].
    cbn. intros [= <-].
    pose proof (generate_row _ _ _ _ _ _ _ Hpass Hrow) as Hrow1.
    pose proof (IH _ _ _ _ _ Hrow1 Hrest) as ->.
    rewrite (generate_eligible _ _ _ _ _ _ Hpass).
    rewrite (generatedFor_row _ _ _ _ Hrow).
    destruct (eligible db r) eqn:Helig; cbn.
    + destruct (Z.leb_spec (rt_nextRunDate r) now) as [Hdue | Hnot]; cbn.
      * unfold eligible in *. cbn. by rewrite Helig.
      * rewrite Helig. by rewrite reachedDates_not_reached.
    + by rewrite Helig.
Qed.



(** ** A pass with a failure *)




(** C10.  An active definition whose [nextRunDate] is reached but whose
    account or category has no row is not in the due list, whatever [now]
    is: the loop of a pass never runs for it, and the pass, whether it
    completes or fails on another definition, leaves its row as it was. *)
Theorem dangling_definition_is_skipped (now : Z) (db : Db) (id : Z) (r : RecurringTransaction) :
  recurringTransactions db !! id = Some r ->
  accounts db !! rt_accountId r = None \/ categories db !! rt_categoryId r = None ->
  (forall d, d ∈ dueList now db -> due_id d <> id)
  /\ generatedFor id now db = 0%nat
  /\ (forall resp db', generate now db = (resp, db') ->
        recurringTransactions db' !! id = Some r).
Proof.
  intros Hrow Hdangling.
  assert (Hnot : forall d, d ∈ dueList now db -> due_id d <> id).
  { intros d (Hr & Ha & Hc & _)%elem_of_dueList <-.
    rewrite Hrow in Hr. injection Hr as ->. destruct Hdangling; congruence. }
  split_and!; [done | |].
  - rewrite (generatedFor_row _ _ _ _ Hrow). unfold eligible.
    destruct Hdangling as [-> | ->];
      rewrite (bool_decide_eq_false_2 (is_Some None)) by (by intros [? ?]);
      by rewrite ?andb_false_r.
  - intros [n txs | msg] db' Hpass.
    + apply generate_Json200 in Hpass as (_ & _ & -> & _).
      rewrite advanced_lookup_notin; [done |].
      intros (d & -> & Hin)%list_elem_of_fmap. by apply (Hnot d).
    + apply generate_Json500 in Hpass as (_ & done & failing & rest & Hdue & -> & _).
      rewrite advanced_lookup_notin; [done |].
      intros (d & -> & Hin)%list_elem_of_fmap. apply (Hnot d); [| done].
      rewrite Hdue. apply elem_of_app. by left.
Qed.

Lemma dangling_definition_is_skipped_witness :
  let r := example_recurring 700 expense daily (mkDate 2023 0 30) 9 in
  (forall d, d ∈ dueList example_now dangling_schedule -> due_id d <> 4)
  /\ generatedFor 4 example_now dangling_schedule = 0%nat
  /\ (forall resp db', generate example_now dangling_schedule = (resp, db') ->
        recurringTransactions db' !! 4 = Some r).
Proof.
  intros r.
  apply (dangling_definition_is_skipped example_now dangling_schedule 4 r).
  - reflexivity.
  - left. reflexivity.
Defined.

(** ** The monthly step at the end of a month *)

(** C8, at the input on which the code and the specification part.  A monthly
    definition whose [nextRunDate] is 31 January is advanced to 3 March in
    2023 and to 2 March in the leap year 2024, past the whole of February,
    by the step alone and by a pass of the route. *)
Theorem advance_monthly_leaves_february :
  advance monthly (mkDate 2023 0 31) = mkDate 2023 2 3
  /\ advance monthly (mkDate 2024 0 31) = mkDate 2024 2 2
  /\ MonthFromTime (advance monthly (mkDate 2023 0 31)) = 2
  /\ MonthFromTime (advance monthly (mkDate 2024 0 31)) = 2
  /\ rt_nextRunDate <$> recurringTransactions
                          (snd (generate example_now (example_schedule 0 0))) !! 3
     = Some (mkDate 2023 2 3).
Proof. vm_compute. repeat split. Qed.

(** ** Two calls at once *)

Lemma run_alone_createTransaction v db :
  run_alone v db = (Finished (fst (createTransaction v db)), snd (createTransaction v db)).
Proof.
  unfold run_alone, createTransaction, await. cbn [step_call].
  destruct (insert_transaction v db) as [[new | e] db1]; [| done].
  cbn [step_call]. unfold await, select_account, read, first_row.
  destruct (accounts db1 !! tx_accountId (snd new)) as [acc |]; [| done].
  cbn. by destruct (update_account_balance _ _ db1) as [[[] | e] db2].
Qed.

Lemma all_schedules_complete (s : list bool) : s ∈ all_schedules (length s).
Proof.
  induction s as [| b s IH]; [by left |].
  cbn. apply elem_of_app. destruct b; [left | right]; by apply list_elem_of_fmap_2.
Qed.

Lemma statements_of_length (s : list bool) :
  (statements_of true s + statements_of false s)%nat = length s.
Proof.
  unfold statements_of. induction s as [| b s IH]; [done |].
  rewrite !filter_cons. destruct b; repeat case_decide; try done; cbn; lia.
Qed.

(** Against C9 as the specification words it.  Both calls read the balance
    0 before either writes: the income of 10.00 is lost and the balance ends
    at 20.00, with both calls completed and both rows stored. *)
Lemma concurrent_creates_lose_an_update :
  final_balance [true; false; true; false; true; false] = Some 2000
  /\ exists r1 r2 db',
       interleave [true; false; true; false; true; false]
                  (AtInsert income_10) (AtInsert income_20) (example_db 0 0)
       = (Finished (Fulfilled r1), Finished (Fulfilled r2), db')
       /\ transactions db' !! 1 = Some income_10
       /\ transactions db' !! 2 = Some income_20
       /\ balanceOf db' 1 = Some 2000.
Proof.
  split; [reflexivity |]. eexists _, _, _.
  split; [vm_compute; reflexivity |]. repeat split.
Qed.

(** C9, as the code has it.  The balance adjustment is a read of the stored
    balance and, in a later statement, a write of the sum the application
    computed from what it read, whatever the balance has become: the three
    statements of a call run alone are [createTransaction], and the write
    stores the balance read plus the change.  Two calls that book incomes of
    10.00 and 20.00 on an account holding 0.00 leave 30.00 when one runs
    after the other, and 10.00 or 20.00 when both read before either
    writes; every schedule of their statements ends in one of the three. *)
Theorem concurrent_creates_outcomes :
  (forall v db,
     run_alone v db = (Finished (fst (createTransaction v db)), snd (createTransaction v db)))
  /\ (forall new read db acc,
        accounts db !! tx_accountId (snd new) = Some acc ->
        decimal_12_2 (read + balanceChange (snd new)) = true ->
        balanceOf (snd (step_call (AtUpdate new read) db)) (tx_accountId (snd new))
        = Some (read + balanceChange (snd new)))
  /\ (forall s : list bool,
        statements_of true s = 3%nat -> statements_of false s = 3%nat ->
        final_balance s = Some 1000 \/ final_balance s = Some 2000
        \/ final_balance s = Some 3000)
  /\ final_balance [true; true; true; false; false; false] = Some 3000
  /\ final_balance [false; false; false; true; true; true] = Some 3000
  /\ final_balance [true; true; false; false; true; false] = Some 2000
  /\ final_balance [true; true; false; false; false; true] = Some 1000.
Proof.
  split_and!; try reflexivity.
  - apply run_alone_createTransaction.
  - intros new read db acc Hacc Hrange. unfold step_call, update_account_balance.
    unfold await, check, write, resolve. rewrite Hrange. cbn.
    unfold balanceOf. cbn. by rewrite lookup_alter_eq, Hacc.
  - intros s H1 H2.
    assert (Hlen : length s = 6%nat) by (rewrite <- statements_of_length; lia).
    pose proof (all_schedules_complete s) as Hin. rewrite Hlen in Hin.
    assert (Hall : Forall (fun s => statements_of true s = 3%nat ->
                                     statements_of false s = 3%nat ->
                                     final_balance s = Some 1000
                                     \/ final_balance s = Some 2000
                                     \/ final_balance s = Some 3000)
                          (all_schedules 6)).
    { match goal with |- ?G => apply (bool_decide_eq_true_1 G) end.
      vm_compute. reflexivity. }
    rewrite Forall_forall in Hall. by apply Hall.
Qed.

Lemma concurrent_creates_outcomes_witness :
  balanceOf (snd (step_call (AtUpdate (1, income_10) 0) (example_db 77 0))) 1 = Some 1000
  /\ (final_balance [true; false; false; true; true; false] = Some 1000
      \/ final_balance [true; false; false; true; true; false] = Some 2000
      \/ final_balance [true; false; false; true; true; false] = Some 3000).
Proof.
  split.
  - apply (proj1 (proj2 concurrent_creates_outcomes) (1, income_10) 0 (example_db 77 0)
             (mkAccount "Checking" checking 77 1)); reflexivity.
  - apply (proj1 (proj2 (proj2 concurrent_creates_outcomes))); reflexivity.
Defined.

(** * Properties of the rest of the storage layer *)

(** ** Transactions of other users, and transactions that are gone *)

(** X1.  [updateTransaction] and [deleteTransaction] of an id that has no
    row, or whose row belongs to another user, throw "Transaction not found"
    and leave the database exactly as it was. *)
Theorem foreign_transaction_not_found (id userId : Z) (p : TransactionPatch) (db : Db) :
  (forall t, transactions db !! id = Some t -> tx_userId t <> userId) ->
  updateTransaction id userId p db = (Rejected TransactionNotFound, db)
  /\ deleteTransaction id userId db = (Rejected TransactionNotFound, db).
Proof.
  intros Hforeign. unfold updateTransaction, deleteTransaction, getTransaction,
    select_transaction, await, read.
  destruct (transactions db !! id) as [t |] eqn:Ht; [| done].
  by rewrite bool_decide_eq_false_2 by eauto.
Qed.

Lemma foreign_transaction_not_found_witness :
  updateTransaction 1 2 (patch_amount 1) (example_ledger 60000 10000)
    = (Rejected TransactionNotFound, example_ledger 60000 10000)
  /\ deleteTransaction 1 2 (example_ledger 60000 10000)
     = (Rejected TransactionNotFound, example_ledger 60000 10000).
Proof.
  apply (foreign_transaction_not_found 1 2 (patch_amount 1) (example_ledger 60000 10000)).
  intros t H. vm_compute in H. injection H as <-. vm_compute. discriminate.
Defined.

(** X2.  After a completed [deleteTransaction] the transaction is gone for
    good: a second delete and an update of the same id throw "Transaction
    not found", and the balance is not reverted a second time. *)
Theorem deleted_transaction_is_gone (id userId : Z) (p : TransactionPatch) (db db' : Db) :
  deleteTransaction id userId db = (Fulfilled tt, db') ->
  deleteTransaction id userId db' = (Rejected TransactionNotFound, db')
  /\ updateTransaction id userId p db' = (Rejected TransactionNotFound, db').
Proof.
  intros (t & acc & _ & _ & _ & _ & ->)%deleteTransaction_Fulfilled.
  unfold updateTransaction, deleteTransaction, getTransaction,
    select_transaction, await, read. cbn.
  by rewrite lookup_delete_eq.
Qed.

Lemma deleted_transaction_is_gone_witness :
  let db' := snd (deleteTransaction 1 1 (example_ledger 60000 10000)) in
  deleteTransaction 1 1 db' = (Rejected TransactionNotFound, db')
  /\ updateTransaction 1 1 (patch_amount 1) db' = (Rejected TransactionNotFound, db').
Proof.
  intros db'.
  apply (deleted_transaction_is_gone 1 1 (patch_amount 1) (example_ledger 60000 10000) db').
  vm_compute. reflexivity.
Defined.

(** ** What the three mutations leave alone *)

Lemma balances_only_refl db : balances_only db db.
Proof. split_and!; try done. intros a. by destruct (accounts db !! a). Qed.

Lemma balances_only_trans db1 db2 db3 :
  balances_only db1 db2 -> balances_only db2 db3 -> balances_only db1 db3.
Proof.
  intros (Hu & Hc & Hr & Ha) (Hu' & Hc' & Hr' & Ha'). split_and!; try congruence.
  intros a. specialize (Ha a). specialize (Ha' a).
  destruct (accounts db1 !! a), (accounts db2 !! a), (accounts db3 !! a);
    try done. destruct Ha as (? & ? & ?), Ha' as (? & ? & ?). split_and!; congruence.
Qed.

Lemma balances_only_alter db db1 m b k :
  accounts db1 = m ->
  balances_only db db1 ->
  balances_only db (set_accounts (alter (with_balance b) k m) db1).
Proof.
  intros <- (Hu & Hc & Hr & Ha). split_and!; try done.
  intros a. specialize (Ha a). cbn. rewrite lookup_alter.
  case_decide; subst; destruct (accounts db !! a), (accounts db1 !! a); cbn; done.
Qed.

Lemma balances_only_insert_row db db1 m :
  balances_only db db1 -> balances_only db (set_transactions m db1).
Proof. intros (? & ? & ? & ?). by split_and!. Qed.

Lemma balances_only_seq db db1 n :
  balances_only db db1 -> balances_only db (set_transactions_id_seq n db1).
Proof. intros (? & ? & ? & ?). by split_and!. Qed.

(** The footprint of a mutation, whether it completes or throws. *)
Lemma createTransaction_footprint v db out db' :
  createTransaction v db = (out, db') ->
  balances_only db db' /\ rows_step db db'
  /\ transactions_id_seq db <= transactions_id_seq db'
  /\ out <> Rejected TransactionNotFound /\ out <> Rejected NoValuesToSet.
Proof.
  async_unfold. cbn. intros H. async_cases; reflect_bools; split_and!; try done;
    try lia;
    try (by apply rows_same);
    try (eapply rows_inserted; by eauto);
    repeat first [ apply balances_only_alter; [reflexivity |]
                 | apply balances_only_insert_row
                 | apply balances_only_seq | apply balances_only_refl ].
Qed.

Lemma updateTransaction_footprint id userId p db out db' :
  updateTransaction id userId p db = (out, db') ->
  balances_only db db' /\ rows_step db db'
  /\ transactions_id_seq db' = transactions_id_seq db
  /\ out <> Rejected UniqueViolation.
Proof.
  async_unfold. cbn. intros H. async_cases; reflect_bools; split_and!; try done;
    try (by apply rows_same);
    try (eapply rows_replaced; by eauto);
    repeat first [ apply balances_only_alter; [reflexivity |]
                 | apply balances_only_insert_row
                 | apply balances_only_seq | apply balances_only_refl ].
Qed.

Lemma deleteTransaction_footprint id userId db out db' :
  deleteTransaction id userId db = (out, db') ->
  balances_only db db' /\ rows_step db db'
  /\ transactions_id_seq db' = transactions_id_seq db
  /\ out <> Rejected UniqueViolation /\ out <> Rejected ForeignKeyViolation
  /\ out <> Rejected NoValuesToSet.
Proof.
  async_unfold. cbn. intros H. async_cases; reflect_bools; split_and!; try done;
    try (by apply rows_same);
    try (by eapply rows_removed);
    repeat first [ apply balances_only_alter; [reflexivity |]
                 | apply balances_only_insert_row
                 | apply balances_only_seq | apply balances_only_refl ].
Qed.

Lemma run_mutation_footprint m db out db' :
  run_mutation m db = (out, db') ->
  balances_only db db' /\ rows_step db db'
  /\ transactions_id_seq db <= transactions_id_seq db'.
Proof.
  destruct m as [v | id userId p | id userId]; unfold run_mutation.
  - unfold await at 1. destruct (createTransaction v db) as [[r | e] db1] eqn:Hrun;
      intros [= <- <-]; by apply createTransaction_footprint in Hrun as (? & ? & ? & _).
  - unfold await at 1. destruct (updateTransaction id userId p db) as [[r | e] db1] eqn:Hrun;
      intros [= <- <-]; apply updateTransaction_footprint in Hrun as (? & ? & ? & _);
      split_and!; try done; lia.
  - intros Hrun. apply deleteTransaction_footprint in Hrun as (? & ? & ? & _).
    split_and!; try done; lia.
Qed.

(** X3.  Whether it completes or throws, a transaction mutation changes
    nothing but the table of transactions, its sequence and balances: users,
    categories and recurring definitions are untouched, no account appears
    or disappears, and no account changes its name, type or owner. *)
Theorem mutation_touches_only_the_ledger (m : Mutation) (db db' : Db) (out : Settled unit) :
  run_mutation m db = (out, db') -> balances_only db db'.
Proof. intros H. by apply run_mutation_footprint in H as (? & _). Qed.

Lemma mutation_touches_only_the_ledger_witness :
  balances_only (example_ledger 60000 10000)
    (snd (run_mutation (Update 1 1 (patch_account 2)) (example_ledger 60000 10000))).
Proof.
  apply (mutation_touches_only_the_ledger (Update 1 1 (patch_account 2))
           (example_ledger 60000 10000) _
           (fst (run_mutation (Update 1 1 (patch_account 2)) (example_ledger 60000 10000)))).
  vm_compute. reflexivity.
Defined.

(** ** The sequence of ids *)

Lemma rows_step_serial_ahead db db' :
  rows_step db db' -> transactions_id_seq db <= transactions_id_seq db' ->
  serial_ahead db -> serial_ahead db'.
Proof.
  unfold serial_ahead, map_Forall. intros Hstep Hseq Hahead i t. destruct Hstep as [-> | v _ _ -> Hnext | id old new Hold _ -> | id ->].
  - intros Hi%Hahead. lia.
  - rewrite lookup_insert. case_decide as Hi; [subst; lia |].
    intros Hin%Hahead. lia.
  - rewrite lookup_insert. case_decide as Hi; [subst; apply Hahead in Hold; lia |].
    intros Hin%Hahead. lia.
  - rewrite lookup_delete. case_decide; [done |]. intros Hin%Hahead. lia.
Qed.

(** X4.  While the sequence behind [transactions.id] is ahead of every id in
    use, as it is in a database that only this code has written to, every
    mutation keeps it ahead, whether it completes or throws; then
    [createTransaction] is never rejected for a duplicate id, and the id it
    returns is larger than every id in the table, the ids of deleted rows
    included. *)
Theorem ids_are_never_reused (db : Db) :
  serial_ahead db ->
  (forall m out db', run_mutation m db = (out, db') -> serial_ahead db')
  /\ (forall v out db',
        createTransaction v db = (out, db') ->
        out <> Rejected UniqueViolation
        /\ forall id t, out = Fulfilled (id, t) ->
             transactions_id_seq db <= id < transactions_id_seq db'
             /\ forall j t', transactions db !! j = Some t' -> j < id).
Proof.
  intros Hahead. split.
  - intros m out db' (_ & Hstep & Hseq)%run_mutation_footprint.
    by eapply rows_step_serial_ahead.
  - intros v out db' Hrun. split.
    + intros ->. revert Hrun. async_unfold. cbn. intros Hrun. async_cases; reflect_bools.
      match goal with
      | H : transactions ?d !! transactions_id_seq ?d <> None |- _ =>
          destruct (transactions d !! transactions_id_seq d) as [t |] eqn:Ht; [| done]
      end.
      match goal with Ha : serial_ahead _ |- _ => apply Ha in Ht end. lia.
    + intros id t ->.
      apply createTransaction_Fulfilled in Hrun as (acc & [= -> ->] & _ & _ & _ & _ & _ & ->).
      cbn. split; [lia |]. intros j t' Hj%Hahead. done.
Qed.

Lemma ids_are_never_reused_witness :
  let db := example_ledger 60000 10000 in
  (forall m out db', run_mutation m db = (out, db') -> serial_ahead db')
  /\ (forall v out db',
        createTransaction v db = (out, db') ->
        out <> Rejected UniqueViolation
        /\ forall id t, out = Fulfilled (id, t) ->
             transactions_id_seq db <= id < transactions_id_seq db'
             /\ forall j t', transactions db !! j = Some t' -> j < id).
Proof.
  intros db. apply (ids_are_never_reused db).
  apply (bool_decide_eq_true_1 (serial_ahead db)). vm_compute. reflexivity.
Defined.

(** ** The foreign keys *)

Lemma balances_only_is_Some db db' a :
  balances_only db db' -> is_Some (accounts db' !! a) <-> is_Some (accounts db !! a).
Proof.
  intros (_ & _ & _ & Ha). specialize (Ha a).
  destruct (accounts db !! a), (accounts db' !! a); try done; split; eauto.
  all: by intros [? ?].
Qed.

Lemma footprint_references_intact db db' :
  balances_only db db' -> rows_step db db' ->
  references_intact db -> references_intact db'.
Proof.
  intros Hframe Hstep [Htx Hrec].
  pose proof Hframe as (_ & Hcat & Hrecs & _).
  unfold references_intact, map_Forall in *. rewrite Hcat, Hrecs. split.
  - intros i t. rewrite (balances_only_is_Some _ _ _ Hframe).
    destruct Hstep as [-> | v _ Hrefs -> _ | id old new Hold Hrefs -> | id ->].
    + apply Htx.
    + rewrite lookup_insert. case_decide; [| apply Htx].
      intros [= <-]. unfold references_ok in Hrefs. by reflect_bools.
    + rewrite lookup_insert. case_decide; [| apply Htx].
      intros [= <-]. destruct (Htx _ _ Hold) as [Ha Hc].
      unfold patch_references_ok in Hrefs. reflect_bools.
      repeat match goal with H : _ || _ = true |- _ =>
        apply orb_true_iff in H as [H | H]; apply bool_decide_eq_true in H end;
        split; congruence || done.
    + rewrite lookup_delete. case_decide; [done | apply Htx].
  - intros i r Hr. rewrite (balances_only_is_Some _ _ _ Hframe). by apply (Hrec i r).
Qed.

Lemma createTransaction_no_TypeError v db db' :
  createTransaction v db <> (Rejected TypeError, db').
Proof.
  async_unfold. cbn. intros H. async_cases; reflect_bools.
  match goal with Hr : references_ok _ _ = true |- _ =>
    unfold references_ok in Hr; cbn in Hr; reflect_bools end.
  match goal with Hs : is_Some (accounts _ !! _), Hn : accounts _ !! _ = None |- _ =>
    rewrite Hn in Hs; by destruct Hs end.
Qed.

Lemma deleteTransaction_no_TypeError id userId db db' :
  references_intact db -> deleteTransaction id userId db <> (Rejected TypeError, db').
Proof.
  intros [Htx _]. async_unfold. cbn. intros H. async_cases; reflect_bools.
  match goal with Ht : transactions _ !! _ = Some _ |- _ =>
    destruct (Htx _ _ Ht) as [[? Ha] _] end. congruence.
Qed.

Lemma updateTransaction_no_TypeError id userId p db db' :
  references_intact db -> updateTransaction id userId p db <> (Rejected TypeError, db').
Proof.
  intros [Htx _]. async_unfold. cbn. intros H. async_cases; reflect_bools;
    match goal with Ht : transactions _ !! _ = Some _ |- _ =>
      destruct (Htx _ _ Ht) as [[? Ha] _] end; try congruence.
  match goal with H : alter _ _ _ !! _ = None |- _ =>
    apply eq_None_not_Some in H; apply H, lookup_alter_is_Some end.
  unfold patch_references_ok in *. cbn in *. reflect_bools.
  match goal with
  | H : bool_decide (default (tx_accountId _) _ = _) || _ = true |- _ =>
      apply orb_true_iff in H as [H | H]; apply bool_decide_eq_true in H
  end; [| done].
  match goal with H : default _ _ = _ |- _ => rewrite H end. eauto.
Qed.

(** X5.  In a database whose transactions and recurring definitions all
    reference an existing account and category, as the foreign keys of the
    schema require, every mutation leaves it so, whether it completes or
    throws, and none ever fails on a missing account row (a [TypeError]). *)
Theorem mutations_keep_references (m : Mutation) (db db' : Db) (out : Settled unit) :
  references_intact db ->
  run_mutation m db = (out, db') ->
  references_intact db' /\ out <> Rejected TypeError.
Proof.
  intros Hintact Hrun. split.
  - apply run_mutation_footprint in Hrun as (Hframe & Hstep & _).
    by eapply footprint_references_intact.
  - intros ->. destruct m as [v | id userId p | id userId]; unfold run_mutation in Hrun.
    + unfold await at 1 in Hrun.
      destruct (createTransaction v db) as [[r | e] db1] eqn:Hcreate; [done |].
      injection Hrun as -> ->. by apply createTransaction_no_TypeError in Hcreate.
    + unfold await at 1 in Hrun.
      destruct (updateTransaction id userId p db) as [[r | e] db1] eqn:Hupdate; [done |].
      injection Hrun as -> ->. by apply updateTransaction_no_TypeError in Hupdate.
    + by apply deleteTransaction_no_TypeError in Hrun.
Qed.

Lemma mutations_keep_references_witness :
  let db := example_ledger 60000 10000 in
  let m := Update 1 1 (patch_account 7) in
  references_intact (snd (run_mutation m db)) /\ fst (run_mutation m db) <> Rejected TypeError.
Proof.
  intros db m.
  apply (mutations_keep_references m db (snd (run_mutation m db)) (fst (run_mutation m db))).
  - apply (bool_decide_eq_true_1 (references_intact db)). vm_compute. reflexivity.
  - by destruct (run_mutation m db).
Defined.

(** ** Accounts *)

(** X6.  [deleteAccount] removes at most the row it names, and only when it
    belongs to the caller and no transaction or recurring definition
    references it: on an account of another user, or on no account, it
    completes without a change; on an account in use it is rejected by the
    foreign key without a change.  So it never leaves a transaction or a
    definition without its account. *)
Theorem deleteAccount_is_guarded (id userId : Z) (db db' : Db) (out : Settled unit) :
  deleteAccount id userId db = (out, db') ->
  (forall j, j <> id -> accounts db' !! j = accounts db !! j)
  /\ transactions db' = transactions db
  /\ recurringTransactions db' = recurringTransactions db
  /\ (owned_account id userId db = None -> out = Fulfilled tt /\ db' = db)
  /\ (is_Some (owned_account id userId db) -> account_in_use id db ->
        out = Rejected ForeignKeyViolation /\ db' = db)
  /\ (is_Some (owned_account id userId db) -> ~ account_in_use id db ->
        out = Fulfilled tt /\ accounts db' !! id = None)
  /\ (references_intact db -> references_intact db').
Proof.
  unfold deleteAccount, await, read, check, write, resolve, throw.
  destruct (owned_account id userId db) as [a |] eqn:Howned.
  - destruct (decide (account_in_use id db)) as [Huse | Hfree].
    + rewrite (bool_decide_eq_true_2 _ Huse). cbn. intros [= <- <-].
      split_and!; try done.
    + rewrite (bool_decide_eq_false_2 _ Hfree). cbn. intros [= <- <-].
      split_and!; try done.
      * intros j Hj. cbn. by rewrite lookup_delete_ne.
      * intros _ _. cbn. by rewrite lookup_delete_eq.
      * intros [Htx Hrec]. unfold references_intact, map_Forall in *. cbn. split.
        -- intros i t Ht. destruct (Htx i t Ht) as [Ha Hc]. split; [| done].
           rewrite lookup_delete_ne; [done |].
           intros ->. apply Hfree. left. eauto.
        -- intros i r Hr. destruct (Hrec i r Hr) as [Ha Hc]. split; [| done].
           rewrite lookup_delete_ne; [done |].
           intros ->. apply Hfree. right. eauto.
  - intros [= <- <-]. split_and!; try done; by intros [? ?].
Qed.

Lemma deleteAccount_is_guarded_witness :
  let db := example_ledger 60000 10000 in
  let out := deleteAccount 1 1 db in
  (forall j, j <> 1 -> accounts (snd out) !! j = accounts db !! j)
  /\ transactions (snd out) = transactions db
  /\ recurringTransactions (snd out) = recurringTransactions db
  /\ (owned_account 1 1 db = None -> fst out = Fulfilled tt /\ snd out = db)
  /\ (is_Some (owned_account 1 1 db) -> account_in_use 1 db ->
        fst out = Rejected ForeignKeyViolation /\ snd out = db)
  /\ (is_Some (owned_account 1 1 db) -> ~ account_in_use 1 db ->
        fst out = Fulfilled tt /\ accounts (snd out) !! 1 = None)
  /\ (references_intact db -> references_intact (snd out)).
Proof.
  intros db out.
  apply (deleteAccount_is_guarded 1 1 db (snd out) (fst out)).
  subst out. by destruct (deleteAccount 1 1 db).
Defined.

(** X7.  [updateAccount] changes at most the row it names, and only when it
    belongs to the caller: on an account of another user, or on no account,
    it returns no row and changes nothing.  On the caller's account it
    stores the patched columns, the balance as given whatever the
    transactions on the account are, and never another owner; a rejected
    call changes nothing, and no call touches a transaction or another
    account. *)
Theorem updateAccount_is_scoped (id userId : Z) (p : AccountPatch) (db db' : Db)
    (out : Settled (option (Z * Account))) :
  updateAccount id userId p db = (out, db') ->
  (forall j, j <> id -> accounts db' !! j = accounts db !! j)
  /\ transactions db' = transactions db
  /\ (owned_account id userId db = None ->
        db' = db /\ forall row, out <> Fulfilled (Some row))
  /\ (forall row, out = Fulfilled (Some row) ->
        exists a, owned_account id userId db = Some a
          /\ row = (id, apply_account_patch p a)
          /\ accounts db' !! id = Some (apply_account_patch p a)
          /\ acc_userId (apply_account_patch p a) = userId
          /\ acc_balance (apply_account_patch p a) = default (acc_balance a) (ap_balance p))
  /\ (forall e, out = Rejected e -> db' = db).
Proof.
  unfold updateAccount, await, read, check, write, resolve, throw.
  destruct (_ || _); cbn; [| intros [= <- <-]; split_and!; by eauto].
  destruct (owned_account id userId db) as [a |] eqn:Howned; cbn;
    [| intros [= <- <-]; split_and!; by eauto].
  destruct (from_option decimal_12_2 true (ap_balance p)); cbn; intros [= <- <-];
    split_and!; try done.
  - intros j Hj. cbn. by rewrite lookup_insert_ne.
  - intros row [= <-]. exists a. split_and!; try done.
    + cbn. by rewrite lookup_insert_eq.
    + cbn. unfold owned_account in Howned. repeat case_match; simplify_eq.
      by reflect_bools.
Qed.

Lemma updateAccount_is_scoped_witness :
  let db := example_ledger 60000 10000 in
  let p := mkAccountPatch None None (Some 123) in
  let out := updateAccount 1 1 p db in
  (forall j, j <> 1 -> accounts (snd out) !! j = accounts db !! j)
  /\ transactions (snd out) = transactions db
  /\ (owned_account 1 1 db = None ->
        snd out = db /\ forall row, fst out <> Fulfilled (Some row))
  /\ (forall row, fst out = Fulfilled (Some row) ->
        exists a, owned_account 1 1 db = Some a
          /\ row = (1, apply_account_patch p a)
          /\ accounts (snd out) !! 1 = Some (apply_account_patch p a)
          /\ acc_userId (apply_account_patch p a) = 1
          /\ acc_balance (apply_account_patch p a) = default (acc_balance a) (ap_balance p))
  /\ (forall e, fst out = Rejected e -> snd out = db).
Proof.
  intros db p out.
  apply (updateAccount_is_scoped 1 1 p db (snd out) (fst out)).
  subst out. by destruct (updateAccount 1 1 p db).
Defined.

(** ** The scheduler on a database that satisfies the foreign keys *)

(** X8.  In a database whose definitions all reference an existing account
    and category, the inner joins of the due query lose nothing: a definition
    is in the due list, once, exactly when it is active and its
    [nextRunDate] is not after [now]. *)
Theorem due_list_is_complete (now : Z) (db : Db) (id : Z) (r : RecurringTransaction) :
  references_intact db ->
  recurringTransactions db !! id = Some r ->
  generatedFor id now db
  = (if rt_isActive r && (rt_nextRunDate r <=? now) then 1%nat else 0%nat)
  /\ ((exists d, d ∈ dueList now db /\ due_id d = id /\ due_recurring d = r)
      <-> rt_isActive r = true /\ rt_nextRunDate r <= now).
Proof.
  intros [_ Hrec] Hrow. destruct (Hrec id r Hrow) as [Ha Hc].
  assert (Helig : eligible db r = rt_isActive r).
  { unfold eligible. rewrite !bool_decide_eq_true_2 by done. by rewrite !andb_true_r. }
  pose proof (generatedFor_row id now db r Hrow) as Hgen. rewrite Helig in Hgen.
  split; [done |]. split.
  - intros (d & Hin & <- & <-). apply elem_of_dueList in Hin as (_ & _ & _ & ? & ?). done.
  - intros [Hactive Hdate].
    rewrite Hactive in Hgen. destruct (Z.leb_spec (rt_nextRunDate r) now); [| lia].
    apply generatedFor_1 in Hgen as (d & Hin & Hid). exists d. split_and!; try done.
    apply elem_of_dueList in Hin as (Hr & _). rewrite Hid, Hrow in Hr. by injection Hr.
Qed.

Lemma due_list_is_complete_witness :
  let db := example_schedule 0 0 in
  let r := example_recurring 1200 expense daily (mkDate 2023 0 30) 2 in
  generatedFor 8 example_now db
  = (if rt_isActive r && (rt_nextRunDate r <=? example_now) then 1%nat else 0%nat)
  /\ ((exists d, d ∈ dueList example_now db /\ due_id d = 8 /\ due_recurring d = r)
      <-> rt_isActive r = true /\ rt_nextRunDate r <= example_now).
Proof.
  intros db r. apply (due_list_is_complete example_now db 8 r).
  - apply (bool_decide_eq_true_1 (references_intact db)). vm_compute. reflexivity.
  - reflexivity.
Defined.

Lemma generate_one_tracks now d db tx db' :
  recurringTransactions db !! due_id d = Some (due_recurring d) ->
  generate_one now d db = (Fulfilled tx, db') -> tracks db db'.
Proof.
  intros Hrow (db1 & Hcreate & ->)%generate_one_Fulfilled; [| done].
  apply createTransaction_tracks in Hcreate. exact Hcreate.
Qed.

Lemma generate_loop_tracks now due :
  forall gen db txs db',
    NoDup (due_id <$> due) ->
    (forall d, d ∈ due -> recurringTransactions db !! due_id d = Some (due_recurring d)) ->
    generate_loop now due gen db = (Fulfilled txs, db') -> tracks db db'.
Proof.
  induction due as [| d due IH]; intros gen db txs db' Hnd Hrows; cbn.
  - intros [= _ <-]. apply tracks_refl.
  - rewrite fmap_cons in Hnd. apply NoDup_cons in Hnd as [Hd Hnd].
    intros (tx & db1 & Hone & Hloop)%await_Fulfilled.
    assert (Hrow : recurringTransactions db !! due_id d = Some (due_recurring d))
      by (apply Hrows; by left).
    eapply tracks_trans; [by eapply generate_one_tracks |].
    eapply IH; [done | | done].
    intros d' Hd'. apply generate_one_Fulfilled in Hone as (db0 & Hcreate & ->); [| done].
    cbn. rewrite lookup_insert_ne.
    + apply Hrows. by right.
    + intros Heq. apply Hd. apply list_elem_of_fmap. by exists d'.
Qed.

(** X9.  A pass that completes keeps the books: every balance has moved by
    exactly the change of the signed sum of the transactions on the account,
    so the balance invariant of the three mutations holds across passes of
    the scheduler too. *)
Theorem generate_keeps_the_books (now : Z) (db db' : Db) (n : nat)
    (txs : list (Z * Transaction)) :
  generate now db = (Json200 n txs, db') -> tracks db db'.
Proof.
  unfold generate, getRecurringTransactionsDue, await at 1, read.
  destruct (generate_loop now (dueList now db) [] db) as [[txs' | e] db1] eqn:Hloop; [| done].
  intros [= _ _ <-]. eapply generate_loop_tracks; [apply NoDup_dueList | | done].
  intros d Hd. by apply elem_of_dueList in Hd as (? & _).
Qed.

Lemma generate_keeps_the_books_witness :
  tracks (example_schedule 0 0) (snd (generate example_now (example_schedule 0 0))).
Proof.
  apply (generate_keeps_the_books example_now (example_schedule 0 0) _ 3
           (match fst (generate example_now (example_schedule 0 0)) with
            | Json200 _ txs => txs
            | Json500 _ => []
            end)).
  vm_compute. reflexivity.
Defined.

(** ** How far a schedule moves *)

Lemma advance_at_least_a_day frequency t : t + msPerDay <= advance frequency t.
Proof.
  destruct frequency.
  - rewrite advance_daily. lia.
  - rewrite advance_weekly. unfold msPerDay. lia.
  - pose proof (MonthFromTime_range t) as Hm.
    pose proof (TimeWithinDay_range t) as Htime.
    unfold advance, setMonth, getMonth, MakeDate.
    assert (Hday : Day t < MakeDay (YearFromTime t) (MonthFromTime t + 1) (DateFromTime t)).
    { unfold MakeDay, DateFromTime, DayWithinYear, InLeapYear.
      destruct (decide (MonthFromTime t = 11)) as [-> | Hne].
      - change ((11 + 1) / 12) with 1. change ((11 + 1) mod 12) with 0.
        rewrite DayFromYear_succ, isLeapYear_DaysInYear.
        destruct (isLeapYear (YearFromTime t)), (isLeapYear (YearFromTime t + 1)); cbn; lia.
      - rewrite (Z.div_small (MonthFromTime t + 1) 12),
                (Z.mod_small (MonthFromTime t + 1) 12) by lia.
        rewrite Z.add_0_r.
        generalize (MonthFromTime t) Hm Hne. intros m Hm' Hne'.
        month_cases m; eval_const_add; try done;
          destruct (isLeapYear (YearFromTime t)); eval_monthStart; lia. }
    revert Hday Htime. unfold Day, TimeWithinDay, msPerDay.
    generalize (MakeDay (YearFromTime t) (MonthFromTime t + 1) (DateFromTime t)).
    intros day Hday Htime. Z.div_mod_to_equations; lia.
Qed.

Lemma reachedDates_bound k frequency now : forall next,
  (reachedDates k frequency next now <= Z.to_nat ((now - next) / msPerDay + 1))%nat.
Proof.
  induction k as [| k IH]; intros next; cbn; [lia |].
  destruct (Z.leb_spec next now) as [Hle | Hgt]; [| lia].
  specialize (IH (advance frequency next)).
  pose proof (advance_at_least_a_day frequency next) as Hstep.
  assert ((now - advance frequency next) / msPerDay + 1 <= (now - next) / msPerDay).
  { revert Hstep. unfold msPerDay. generalize (advance frequency next). intros t Ht.
    Z.div_mod_to_equations; lia. }
  assert (0 <= (now - next) / msPerDay).
  { unfold msPerDay. Z.div_mod_to_equations; lia. }
  lia.
Qed.





(** ** Listing transactions *)

Lemma newer_first_total : Total newer_first.
Proof. intros x y. unfold newer_first. lia. Qed.

Lemma newer_first_transitive : Transitive newer_first.
Proof. intros x y z. unfold newer_first. lia. Qed.

Lemma elem_of_joined_transactions userId filters db v :
  v ∈ omap (join_transaction userId filters db) (map_to_list (transactions db)) <->
  transactions db !! tv_id v = Some (tv_transaction v)
  /\ accounts db !! tx_accountId (tv_transaction v) = Some (tv_account v)
  /\ categories db !! tx_categoryId (tv_transaction v) = Some (tv_category v)
  /\ tx_userId (tv_transaction v) = userId
  /\ passes_filters filters (tv_transaction v).
Proof.
  rewrite list_elem_of_omap. split.
  - intros ([id t] & Hin%elem_of_map_to_list & Hjoin).
    unfold join_transaction in Hjoin. cbn in Hjoin.
    destruct (accounts db !! tx_accountId t) as [a |] eqn:Ha; [| done].
    destruct (categories db !! tx_categoryId t) as [c |] eqn:Hc; [| done].
    case_bool_decide as Hok; [| done]. injection Hjoin as <-. cbn.
    destruct Hok. done.
  - intros (Ht & Ha & Hc & Hu & Hf). destruct v as [id t a c]. cbn in *.
    exists (id, t). split; [by apply elem_of_map_to_list |].
    unfold join_transaction. cbn. rewrite Ha, Hc.
    by rewrite bool_decide_eq_true_2.
Qed.

Lemma NoDup_joined_transactions userId filters db :
  NoDup (tv_id <$> omap (join_transaction userId filters db)
                        (map_to_list (transactions db))).
Proof.
  pose proof (NoDup_fst_map_to_list (transactions db)) as Hnd.
  induction (map_to_list (transactions db)) as [| row l IH]; cbn.
  - constructor.
  - apply NoDup_cons in Hnd as [Hrow Hnd]. specialize (IH Hnd).
    destruct (join_transaction userId filters db row) as [v |] eqn:Hjoin; [| done].
    cbn. apply NoDup_cons. split; [| done].
    intros (v' & Heq & (row' & Hin' & Hjoin')%list_elem_of_omap)%list_elem_of_fmap.
    apply Hrow. apply list_elem_of_fmap. exists row'. split; [| done].
    unfold join_transaction in Hjoin, Hjoin'.
    repeat case_match; simplify_eq; cbn in *; congruence.
Qed.

(** X12.  [getUserTransactions] returns, newest first and each once, exactly
    the transactions of the user that pass the filters and whose account and
    category rows exist, each with those rows: it never shows another user's
    transaction.  A filter on an account or category id of 0 counts as no
    filter. *)
Theorem getUserTransactions_lists (userId : Z) (filters : option TransactionFilters)
    (db : Db) :
  exists l,
    getUserTransactions userId filters db = (Fulfilled l, db)
    /\ (forall v, v ∈ l <->
          transactions db !! tv_id v = Some (tv_transaction v)
          /\ accounts db !! tx_accountId (tv_transaction v) = Some (tv_account v)
          /\ categories db !! tx_categoryId (tv_transaction v) = Some (tv_category v)
          /\ tx_userId (tv_transaction v) = userId
          /\ passes_filters filters (tv_transaction v))
    /\ StronglySorted newer_first l
    /\ NoDup (tv_id <$> l).
Proof.
  eexists. split; [reflexivity |]. split_and!.
  - intros v. rewrite merge_sort_Permutation. apply elem_of_joined_transactions.
  - apply StronglySorted_merge_sort;
      [apply newer_first_transitive | apply newer_first_total].
  - rewrite merge_sort_Permutation. apply NoDup_joined_transactions.
Qed.

(** X13.  The recent transactions of the dashboard are at most five of the
    user's listed transactions, and none that is left out is newer than one
    that is shown. *)
Theorem recentTransactions_are_the_newest (userId : Z) (db : Db) :
  exists all recent,
    getUserTransactions userId None db = (Fulfilled all, db)
    /\ recentTransactions userId db = (Fulfilled recent, db)
    /\ (length recent <= 5)%nat
    /\ length recent = Nat.min 5 (length all)
    /\ (forall v, v ∈ recent -> v ∈ all)
    /\ (forall shown left_out,
          shown ∈ recent -> left_out ∈ all -> left_out ∉ recent ->
          tx_date (tv_transaction left_out) <= tx_date (tv_transaction shown)).
Proof.
  exists (merge_sort newer_first
            (omap (join_transaction userId None db) (map_to_list (transactions db)))).
  eexists. split; [reflexivity |]. split; [reflexivity |].
  set (all := merge_sort _ _).
  assert (Hsorted : StronglySorted newer_first all).
  { apply StronglySorted_merge_sort;
      [apply newer_first_transitive | apply newer_first_total]. }
  split_and!.
  - rewrite length_take. lia.
  - rewrite length_take. reflexivity.
  - intros v Hv. rewrite <- (take_drop 5 all). apply elem_of_app. by left.
  - intros shown left_out Hshown Hall Hout.
    rewrite <- (take_drop 5 all) in Hall, Hsorted.
    apply elem_of_app in Hall as [Hin | Hin]; [done |].
    exact (StronglySorted_app_1_elem_of newer_first _ _ _ _ Hsorted Hshown Hin).
Qed.

(** ** Budgets *)

(** X14.  [getUserBudgets] returns exactly the budgets of the user whose
    category row exists, each with that row and each once, and never a budget
    of another user.  The month and the year restrict the list only when both
    are given: with one of them alone the whole list of the user is
    returned. *)
Theorem getUserBudgets_lists (budgets : gmap Z Budget) (userId : Z)
    (month year : option Z) (db : Db) :
  exists l,
    getUserBudgets budgets userId month year db = (Fulfilled l, db)
    /\ (forall v, v ∈ l <->
          budgets !! bv_id v = Some (bv_budget v)
          /\ categories db !! b_categoryId (bv_budget v) = Some (bv_category v)
          /\ b_userId (bv_budget v) = userId
          /\ (forall m y, month = Some m -> year = Some y ->
                b_month (bv_budget v) = m /\ b_year (bv_budget v) = y))
    /\ NoDup (bv_id <$> l)
    /\ (month = None \/ year = None ->
          getUserBudgets budgets userId month year db
          = getUserBudgets budgets userId None None db).
Proof.
  eexists. split; [reflexivity |]. split_and!.
  - intros v. rewrite list_elem_of_omap. split.
    + intros ([id b] & Hin%elem_of_map_to_list & Hjoin).
      unfold join_budget in Hjoin. cbn in Hjoin.
      destruct (categories db !! b_categoryId b) as [c |] eqn:Hc; [| done].
      destruct month as [m |], year as [y |];
        (case_bool_decide as Hok; [| done]); injection Hjoin as <-; cbn;
        intuition congruence.
    + intros (Hb & Hc & Hu & Hmy). destruct v as [id b c]. cbn in *.
      exists (id, b). split; [by apply elem_of_map_to_list |].
      unfold join_budget. cbn. rewrite Hc.
      destruct month as [m |], year as [y |];
        rewrite bool_decide_eq_true_2; try done.
      destruct (Hmy m y eq_refl eq_refl). done.
  - pose proof (NoDup_fst_map_to_list budgets) as Hnd.
    induction (map_to_list budgets) as [| row l IH]; cbn; [constructor |].
    apply NoDup_cons in Hnd as [Hrow Hnd]. specialize (IH Hnd).
    destruct (join_budget userId month year db row) as [v |] eqn:Hjoin; [| done].
    cbn. apply NoDup_cons. split; [| done].
    intros (v' & Heq & (row' & Hin' & Hjoin')%list_elem_of_omap)%list_elem_of_fmap.
    apply Hrow. apply list_elem_of_fmap. exists row'. split; [| done].
    unfold join_budget in Hjoin, Hjoin'.
    repeat case_match; simplify_eq; cbn in *; congruence.
  - intros [-> | ->]; [reflexivity |]. by destruct month.
Qed.

(** ** The month of the dashboard *)

Lemma MakeDay_date y m d : MakeDay y m d = MakeDay y m 1 + d - 1.
Proof. unfold MakeDay. lia. Qed.

Lemma startOfMonth_eq now :
  99 < YearFromTime now ->
  startOfMonth now
  = MakeDate (MakeDay (YearFromTime now) (MonthFromTime now) 1) 0.
Proof.
  intros Hy. unfold startOfMonth, DateOf, getFullYear, getMonth.
  destruct (Z.leb_spec (YearFromTime now) 99); [lia |].
  by rewrite andb_false_r.
Qed.

Lemma endOfMonth_eq now :
  99 < YearFromTime now ->
  endOfMonth now
  = MakeDate (MakeDay (YearFromTime now) (MonthFromTime now)
                      (daysInMonth (MonthFromTime now) (YearFromTime now))) 0.
Proof.
  intros Hy. unfold endOfMonth, DateOf, getFullYear, getMonth.
  destruct (Z.leb_spec (YearFromTime now) 99); [lia |].
  rewrite andb_false_r. f_equal.
  pose proof (MonthFromTime_range now) as Hm.
  generalize dependent (MonthFromTime now). intros m Hm.
  generalize (YearFromTime now). intros y.
  destruct (decide (m = 11)) as [-> | Hne].
  - unfold MakeDay. change (11 + 1) with 12.
    change (12 / 12) with 1. change (12 mod 12) with 0.
    change (11 / 12) with 0. change (11 mod 12) with 11.
    replace (y + 0) with y by lia.
    rewrite DayFromYear_succ, isLeapYear_DaysInYear. unfold daysInMonth.
    destruct (isLeapYear y), (isLeapYear (y + 1)); eval_monthStart; lia.
  - rewrite (MakeDay_past_end y m (daysInMonth m y)) by lia.
    by rewrite Z.sub_diag.
Qed.

Lemma month_window now t :
  99 < YearFromTime now ->
  startOfMonth now <= t <= endOfMonth now <->
  YearFromTime t = YearFromTime now /\ MonthFromTime t = MonthFromTime now
  /\ (DateFromTime t < daysInMonth (MonthFromTime now) (YearFromTime now)
      \/ (DateFromTime t = daysInMonth (MonthFromTime now) (YearFromTime now)
          /\ TimeWithinDay t = 0)).
Proof.
  intros Hy. rewrite startOfMonth_eq, endOfMonth_eq by done.
  pose proof (MonthFromTime_range now) as Hm.
  set (y := YearFromTime now) in *. set (m := MonthFromTime now) in *.
  rewrite (MakeDay_date y m (daysInMonth m y)).
  pose proof (TimeWithinDay_range t) as Htime.
  assert (Ht : t = MakeDate (Day t) (TimeWithinDay t)).
  { unfold MakeDate, Day, TimeWithinDay, msPerDay. Z.div_mod_to_equations. lia. }
  split.
  - intros [Hlo Hhi].
    assert (Hday : MakeDay y m 1 <= Day t <= MakeDay y m 1 + daysInMonth m y - 1).
    { revert Hlo Hhi. unfold MakeDate, Day, msPerDay. Z.div_mod_to_equations. lia. }
    destruct (fields_of_MakeDay y m (Day t - MakeDay y m 1 + 1) (TimeWithinDay t))
      as (Hyear & Hmonth & Hdate & _); [done | lia | done |].
    rewrite (MakeDay_date y m (_ + 1)) in Hyear, Hmonth, Hdate.
    replace (MakeDay y m 1 + (Day t - MakeDay y m 1 + 1) - 1) with (Day t)
      in Hyear, Hmonth, Hdate by lia.
    rewrite <- Ht in Hyear, Hmonth, Hdate.
    split_and!; [done | done |]. rewrite Hdate.
    destruct (decide (Day t = MakeDay y m 1 + daysInMonth m y - 1)) as [Hlast | Hnot];
      [right | left; lia].
    split; [lia |]. revert Hhi Htime. rewrite Ht at 1. rewrite Hlast.
    unfold MakeDate, msPerDay. lia.
  - intros (Hyear & Hmonth & Hdate).
    pose proof (DateFromTime_range t) as Hrange. rewrite Hyear, Hmonth in Hrange.
    assert (Hday : Day t = MakeDay y m 1 + DateFromTime t - 1).
    { unfold MakeDay. rewrite (Z.div_small m 12), (Z.mod_small m 12) by lia.
      rewrite Z.add_0_r. unfold DateFromTime, DayWithinYear, InLeapYear.
      rewrite Hyear, Hmonth. lia. }
    revert Ht Htime. rewrite Hday. unfold MakeDate, msPerDay. intros Ht Htime.
    destruct Hdate as [Hlt | [Heq Hzero]]; [| rewrite Hzero in Ht]; lia.
Qed.

(** X15.  The transactions the dashboard sums for the month of [now] (from
    year 100 on) are the user's transactions dated in that calendar month up
    to midnight at the start of its last day: a transaction later on the last
    day of the month is in the same month and is left out of the monthly
    income, the monthly expenses and the budget progress. *)
Theorem monthlyTransactions_window (now userId : Z) (db : Db) :
  99 < YearFromTime now ->
  exists l,
    monthlyTransactions now userId db = (Fulfilled l, db)
    /\ (forall id tr, (id, tr) ∈ l <->
          transactions db !! id = Some tr
          /\ tx_userId tr = userId
          /\ YearFromTime (tx_date tr) = YearFromTime now
          /\ MonthFromTime (tx_date tr) = MonthFromTime now
          /\ (DateFromTime (tx_date tr) < daysInMonth (MonthFromTime now) (YearFromTime now)
              \/ (DateFromTime (tx_date tr) = daysInMonth (MonthFromTime now) (YearFromTime now)
                  /\ TimeWithinDay (tx_date tr) = 0)))
    /\ endOfMonth now
       = startOfMonth now
         + (daysInMonth (MonthFromTime now) (YearFromTime now) - 1) * msPerDay
    /\ (forall id tr,
          endOfMonth now < tx_date tr < endOfMonth now + msPerDay ->
          MonthFromTime (tx_date tr) = MonthFromTime now /\ (id, tr) ∉ l).
Proof.
  intros Hy. eexists. split; [reflexivity |].
  assert (Hend : endOfMonth now
                 = startOfMonth now
                   + (daysInMonth (MonthFromTime now) (YearFromTime now) - 1) * msPerDay).
  { rewrite startOfMonth_eq, endOfMonth_eq by done.
    rewrite (MakeDay_date _ _ (daysInMonth _ _)). unfold MakeDate. lia. }
  assert (Hmem : forall id tr,
    (id, tr) ∈ filter (fun row => tx_userId (snd row) = userId
                         /\ startOfMonth now <= tx_date (snd row)
                         /\ tx_date (snd row) <= endOfMonth now)
                      (map_to_list (transactions db)) <->
    transactions db !! id = Some tr /\ tx_userId tr = userId
    /\ startOfMonth now <= tx_date tr <= endOfMonth now).
  { intros id tr. rewrite list_elem_of_filter, elem_of_map_to_list. cbn. tauto. }
  split_and!.
  - intros id tr. rewrite Hmem, month_window by done. tauto.
  - done.
  - intros id tr Hlate.
    pose proof (MonthFromTime_range now) as Hm.
    pose proof (TimeWithinDay_range (tx_date tr)) as Htime.
    assert (Ht : tx_date tr = MakeDate (Day (tx_date tr)) (TimeWithinDay (tx_date tr))).
    { unfold MakeDate, Day, TimeWithinDay, msPerDay. Z.div_mod_to_equations. lia. }
    assert (Hlast : Day (tx_date tr)
                    = MakeDay (YearFromTime now) (MonthFromTime now)
                              (daysInMonth (MonthFromTime now) (YearFromTime now))).
    { revert Hlate. rewrite endOfMonth_eq by done.
      unfold MakeDate, Day, msPerDay. Z.div_mod_to_equations. lia. }
    destruct (fields_of_MakeDay (YearFromTime now) (MonthFromTime now)
                (daysInMonth (MonthFromTime now) (YearFromTime now))
                (TimeWithinDay (tx_date tr)))
      as (_ & Hmonth & _); [done | | done |].
    { unfold daysInMonth. repeat case_match; lia. }
    rewrite <- Hlast, <- Ht in Hmonth. split; [done |].
    rewrite Hmem. lia.
Qed.

Lemma monthlyTransactions_window_witness :
  99 < YearFromTime example_now
  /\ exists l,
    monthlyTransactions example_now 1 (example_ledger 60000 10000) = (Fulfilled l, example_ledger 60000 10000)
    /\ endOfMonth example_now
       = startOfMonth example_now
         + (daysInMonth (MonthFromTime example_now) (YearFromTime example_now) - 1) * msPerDay.
Proof.
  assert (H : 99 < YearFromTime example_now) by (vm_compute; reflexivity).
  split; [exact H |].
  destruct (monthlyTransactions_window example_now 1 (example_ledger 60000 10000) H)
    as (l & Hl & _ & Hend & _).
  exists l. by split.
Defined.

(** ** Changing and removing a recurring definition *)

(** The patch [{ nextRunDate }] the route sends is the general update. *)
Lemma updateRecurringTransaction_is_a_patch id userId nextRunDate db :
  updateRecurringTransaction id userId nextRunDate db
  = updateRecurringTransactionWith id userId
      (mkRecurringPatch None None None None (Some nextRunDate) None None None) db.
Proof.
  storage_unfold. cbn.
  destruct (recurringTransactions db !! id) as [[? ? ? ? ? acc cat ? ?] |]; cbn; [| done].
  case_bool_decide; cbn; [| done].
  by rewrite (bool_decide_eq_true_2 (acc = acc)), (bool_decide_eq_true_2 (cat = cat)).
Qed.

Lemma updateRecurringTransactionWith_pause id userId r db :
  owned_recurring id userId db = Some r ->
  updateRecurringTransactionWith id userId
    (mkRecurringPatch None None None None None None None (Some false)) db
  = (Fulfilled (Some (apply_recurring_patch
                        (mkRecurringPatch None None None None None None None (Some false)) r)),
     set_recurringTransactions
       (<[id := apply_recurring_patch
                  (mkRecurringPatch None None None None None None None (Some false)) r]>
          (recurringTransactions db)) db).
Proof.
  intros Howned. unfold updateRecurringTransactionWith, check, await, read, write,
    resolve, throw. cbn. rewrite Howned. cbn.
  by rewrite (bool_decide_eq_true_2 (rt_accountId r = rt_accountId r)),
             (bool_decide_eq_true_2 (rt_categoryId r = rt_categoryId r)).
Qed.

(** X16.  Stopping a definition of one's own: an update that sets [isActive]
    to false (the patch with only that column always completes) and
    [deleteRecurringTransaction] both leave the definition in no due list at
    any later moment, so no pass generates for it again; the transactions
    generated before stay, and no balance is changed. *)
Theorem stopped_definition_is_never_due (id userId : Z) (r : RecurringTransaction)
    (db : Db) :
  owned_recurring id userId db = Some r ->
  (exists r' db',
     updateRecurringTransactionWith id userId
       (mkRecurringPatch None None None None None None None (Some false)) db
     = (Fulfilled (Some r'), db'))
  /\ (forall p r' db',
        rp_isActive p = Some false ->
        updateRecurringTransactionWith id userId p db = (Fulfilled r', db') ->
        recurringTransactions db' !! id = Some (apply_recurring_patch p r)
        /\ transactions db' = transactions db /\ accounts db' = accounts db
        /\ forall now, generatedFor id now db' = 0%nat
                       /\ forall d, d ∈ dueList now db' -> due_id d <> id)
  /\ (exists db',
        deleteRecurringTransaction id userId db = (Fulfilled tt, db')
        /\ recurringTransactions db' = delete id (recurringTransactions db)
        /\ transactions db' = transactions db /\ accounts db' = accounts db
        /\ forall now, generatedFor id now db' = 0%nat
                       /\ forall d, d ∈ dueList now db' -> due_id d <> id).
Proof.
  intros Howned.
  assert (Hnone : forall now db1, generatedFor id now db1 = 0%nat ->
                    forall d, d ∈ dueList now db1 -> due_id d <> id).
  { intros now db1 Hzero d Hin Hid.
    assert (generatedFor id now db1 = 1%nat); [| lia].
    apply generatedFor_1. by exists d. }
  split_and!.
  - rewrite (updateRecurringTransactionWith_pause id userId r db Howned). eauto.
  - intros p r' db' Hp.
    unfold updateRecurringTransactionWith, check, await, read, write, resolve, throw.
    destruct (recurring_patch_sets_a_column p); cbn; [| done].
    rewrite Howned. cbn.
    destruct (from_option decimal_12_2 true (rp_amount p)); cbn; [| done].
    destruct (_ && _); cbn; [| done].
    intros [= <- <-]. cbn. rewrite lookup_insert_eq.
    split_and!; try done. intros now.
    assert (Hzero : generatedFor id now
              (set_recurringTransactions
                 (<[id := apply_recurring_patch p r]> (recurringTransactions db)) db)
              = 0%nat).
    { rewrite (generatedFor_row id now _ (apply_recurring_patch p r))
        by (cbn; by rewrite lookup_insert_eq).
      unfold eligible. cbn. by rewrite Hp. }
    split; [done | by apply Hnone].
  - unfold deleteRecurringTransaction, await, read, write, resolve.
    rewrite Howned. cbn. eexists. split; [reflexivity |]. cbn.
    split_and!; try done. intros now.
    assert (Hzero : generatedFor id now
              (set_recurringTransactions (delete id (recurringTransactions db)) db)
              = 0%nat).
    { apply generatedFor_no_row. cbn. by rewrite lookup_delete_eq. }
    split; [done | by apply Hnone].
Qed.

Lemma stopped_definition_is_never_due_witness :
  owned_recurring 6 1 (example_schedule 0 0)
  = Some (example_recurring 500000 income weekly (mkDate 2023 0 25) 1)
  /\ exists db',
       deleteRecurringTransaction 6 1 (example_schedule 0 0) = (Fulfilled tt, db')
       /\ forall now, generatedFor 6 now db' = 0%nat.
Proof.
  assert (H : owned_recurring 6 1 (example_schedule 0 0)
              = Some (example_recurring 500000 income weekly (mkDate 2023 0 25) 1))
    by (vm_compute; reflexivity).
  split; [exact H |].
  destruct (stopped_definition_is_never_due 6 1 _ (example_schedule 0 0) H)
    as (_ & _ & db' & Hdel & _ & _ & _ & Hnever).
  exists db'. split; [exact Hdel |]. intros now. apply Hnever.
Defined.

(** X17.  [updateRecurringTransaction] with any patch changes at most the one
    definition it names, and only when it belongs to the caller: for the
    definition of another user, or for none, no row is returned and nothing
    changes.  The owner of a definition never changes, a rejected call
    changes nothing, no call touches a transaction or a balance, and the
    references of the definitions stay intact. *)
Theorem updateRecurringTransactionWith_is_scoped (id userId : Z) (p : RecurringPatch)
    (db db' : Db) (out : Settled (option RecurringTransaction)) :
  updateRecurringTransactionWith id userId p db = (out, db') ->
  (forall j, j <> id -> recurringTransactions db' !! j = recurringTransactions db !! j)
  /\ transactions db' = transactions db /\ accounts db' = accounts db
  /\ categories db' = categories db
  /\ (owned_recurring id userId db = None ->
        db' = db /\ forall r', out <> Fulfilled (Some r'))
  /\ (forall r', out = Fulfilled (Some r') ->
        exists r, owned_recurring id userId db = Some r
          /\ r' = apply_recurring_patch p r
          /\ recurringTransactions db' !! id = Some r'
          /\ rt_userId r' = userId)
  /\ (forall e, out = Rejected e -> db' = db)
  /\ (references_intact db -> references_intact db').
Proof.
  unfold updateRecurringTransactionWith, check, await, read, write, resolve, throw.
  destruct (recurring_patch_sets_a_column p); cbn;
    [| intros [= <- <-]; split_and!; by eauto].
  destruct (owned_recurring id userId db) as [r |] eqn:Howned; cbn;
    [| intros [= <- <-]; split_and!; by eauto].
  destruct (from_option decimal_12_2 true (rp_amount p)); cbn;
    [| intros [= <- <-]; split_and!; by eauto].
  destruct (_ && _) eqn:Hok; cbn; intros [= <- <-];
    [| split_and!; by eauto].
  assert (Hrow : recurringTransactions db !! id = Some r /\ rt_userId r = userId).
  { unfold owned_recurring in Howned. repeat case_match; simplify_eq.
    by reflect_bools. }
  destruct Hrow as [Hrow Huser].
  split_and!; try done.
  - intros j Hj. cbn. by rewrite lookup_insert_ne.
  - intros r' [= <-]. exists r. split_and!; try done.
    cbn. by rewrite lookup_insert_eq.
  - intros [Htx Hrec]. split; [exact Htx |]. cbn.
    intros j r'. destruct (decide (j = id)) as [-> | Hj].
    + rewrite lookup_insert_eq. intros [= <-].
      destruct (Hrec id r Hrow) as [Ha Hc]. cbn in Ha, Hc.
      apply andb_true_iff in Hok as [Hoka Hokc].
      apply orb_true_iff in Hoka, Hokc. cbn in *.
      split.
      * destruct Hoka as [Heq%bool_decide_eq_true | Hin%bool_decide_eq_true];
          [by rewrite Heq | done].
      * destruct Hokc as [Heq%bool_decide_eq_true | Hin%bool_decide_eq_true];
          [by rewrite Heq | done].
    + rewrite lookup_insert_ne by done. apply Hrec.
Qed.

Lemma updateRecurringTransactionWith_is_scoped_witness :
  let db := example_schedule 0 0 in
  let p := mkRecurringPatch (Some 1500) None None (Some weekly) None (Some 1) None None in
  let out := updateRecurringTransactionWith 8 1 p db in
  (forall j, j <> 8 -> recurringTransactions (snd out) !! j = recurringTransactions db !! j)
  /\ transactions (snd out) = transactions db /\ accounts (snd out) = accounts db
  /\ categories (snd out) = categories db
  /\ (owned_recurring 8 1 db = None ->
        snd out = db /\ forall r', fst out <> Fulfilled (Some r'))
  /\ (forall r', fst out = Fulfilled (Some r') ->
        exists r, owned_recurring 8 1 db = Some r
          /\ r' = apply_recurring_patch p r
          /\ recurringTransactions (snd out) !! 8 = Some r'
          /\ rt_userId r' = 1)
  /\ (forall e, fst out = Rejected e -> snd out = db)
  /\ (references_intact db -> references_intact (snd out)).
Proof.
  intros db p out.
  apply (updateRecurringTransactionWith_is_scoped 8 1 p db (snd out) (fst out)).
  subst out. by destruct (updateRecurringTransactionWith 8 1 p db).
Defined.

(** ** Editing a transaction twice *)

(** When [updateTransaction] completes, and the state it leaves. *)
Lemma updateTransaction_completes id userId p db old acc1 acc2 :
  let new := apply_patch p old in
  let reverted :=
    <[tx_accountId old := with_balance (acc_balance acc1 - balanceChange old) acc1]>
      (accounts db) in
  transactions db !! id = Some old ->
  tx_userId old = userId ->
  sets_a_column p = true ->
  from_option decimal_12_2 true (p_amount p) = true ->
  patch_references_ok old new db = true ->
  accounts db !! tx_accountId old = Some acc1 ->
  decimal_12_2 (acc_balance acc1 - balanceChange old) = true ->
  reverted !! tx_accountId new = Some acc2 ->
  decimal_12_2 (acc_balance acc2 + balanceChange new) = true ->
  updateTransaction id userId p db
  = (Fulfilled new,
     mkDb (users db)
          (<[tx_accountId new := with_balance (acc_balance acc2 + balanceChange new) acc2]>
             reverted)
          (categories db)
          (<[id := new]> (transactions db))
          (recurringTransactions db)
          (transactions_id_seq db)).
Proof.
  intros new reverted Hold Huser Hsets Hamount Hrefs Hacc1 Hrevert Hacc2 Hfin.
  subst new reverted.
  replace (acc_balance acc1 - balanceChange old)
    with (acc_balance acc1 + - balanceChange old) in * by lia.
  async_unfold. cbn in *.
  repeat (progress (rewrite ?Hsets, ?Hold, ?Hamount, ?Hacc1, ?Hrevert, ?Hrefs,
                      ?(alter_lookup_Some _ _ _ _ Hacc1), ?Hacc2, ?Hfin,
                      ?(alter_lookup_Some _ _ _ _ Hacc2);
                    try rewrite (bool_decide_eq_true_2 _ Huser); cbn)).
  reflexivity.
Qed.

Lemma apply_full_patch old t :
  tx_userId t = tx_userId old -> apply_patch (full_patch old) t = old.
Proof. destruct old. cbn. unfold apply_patch. cbn. by intros ->. Qed.

Lemma apply_patch_twice p t : apply_patch p (apply_patch p t) = apply_patch p t.
Proof. unfold apply_patch. cbn. by destruct p as [[] [] [] [] [] []]. Qed.



Lemma updateTransaction_accepted_patch id userId p db new db' :
  updateTransaction id userId p db = (Fulfilled new, db') ->
  sets_a_column p = true /\ from_option decimal_12_2 true (p_amount p) = true.
Proof. async_unfold. cbn. intros H. by async_cases. Qed.

(** X19.  Sending the same edit again changes nothing: after a completed
    [updateTransaction] on a database whose balances are values of their
    column, the same call completes again, returns the same transaction and
    leaves every table, the balances included, as the first call left
    them. *)
Theorem update_is_idempotent (id userId : Z) (p : TransactionPatch) (db db' : Db)
    (new : Transaction) :
  balances_in_range db ->
  updateTransaction id userId p db = (Fulfilled new, db') ->
  updateTransaction id userId p db' = (Fulfilled new, db').
Proof.
  intros Hrange Hupd.
  destruct (updateTransaction_accepted_patch _ _ _ _ _ _ Hupd) as [Hsets Hamount].
  apply updateTransaction_Fulfilled in Hupd
    as (old & acc1 & acc2 & Hold & Huser & Hnew & Hacc1 & Hrev & Hacc2 & Hfin & ->).
  assert (Hagain : apply_patch p new = new).
  { rewrite Hnew. apply apply_patch_twice. }
  assert (Hb2 : decimal_12_2 (acc_balance acc2) = true).
  { destruct (decide (tx_accountId new = tx_accountId old)) as [Hsame | Hmoved].
    - rewrite Hsame, lookup_insert_eq in Hacc2. by injection Hacc2 as <-.
    - rewrite lookup_insert_ne in Hacc2 by done. exact (Hrange _ _ Hacc2). }
  set (reverted := <[tx_accountId old := _]> (accounts db)) in *.
  set (acc1' := with_balance (acc_balance acc2 + balanceChange new) acc2).
  set (db' := mkDb _ _ _ _ _ _).
  pose proof (updateTransaction_completes id userId p db' new acc1'
                (with_balance (acc_balance acc1' - balanceChange new) acc1'))
    as Hrun. cbn zeta in Hrun. rewrite Hagain in Hrun.
  rewrite Hrun; clear Hrun.
  - f_equal. subst db'. cbn. f_equal.
    + rewrite !insert_insert_eq. f_equal. subst acc1'. cbn.
      unfold with_balance. cbn. f_equal. lia.
    + by rewrite insert_insert_eq.
  - cbn. by rewrite lookup_insert_eq.
  - by rewrite Hnew.
  - exact Hsets.
  - exact Hamount.
  - unfold patch_references_ok.
    by rewrite (bool_decide_eq_true_2 (tx_accountId new = tx_accountId new)),
               (bool_decide_eq_true_2 (tx_categoryId new = tx_categoryId new)).
  - cbn. by rewrite lookup_insert_eq.
  - subst acc1'. cbn.
    by replace (acc_balance acc2 + balanceChange new - balanceChange new)
      with (acc_balance acc2) by lia.
  - by rewrite lookup_insert_eq.
  - subst acc1'. cbn.
    by replace (acc_balance acc2 + balanceChange new - balanceChange new + balanceChange new)
      with (acc_balance acc2 + balanceChange new) by lia.
Qed.

Lemma update_is_idempotent_witness :
  let db := example_ledger 60000 10000 in
  let p := mkPatch (Some 2500) None None (Some expense) (Some 2) None in
  let first := updateTransaction 1 1 p db in
  updateTransaction 1 1 p (snd first)
  = (Fulfilled (apply_patch p (example_tx 10000 income 1 1)), snd first).
Proof.
  intros db p first.
  apply (update_is_idempotent 1 1 p db (snd first)
           (apply_patch p (example_tx 10000 income 1 1))).
  - apply (bool_decide_eq_true_1 (balances_in_range db)). vm_compute. reflexivity.
  - vm_compute. reflexivity.
Defined.

(** ** The listing after a mutation *)

Lemma elem_of_getUserTransactions userId filters db l v :
  getUserTransactions userId filters db = (Fulfilled l, db) ->
  v ∈ l <->
  transactions db !! tv_id v = Some (tv_transaction v)
  /\ accounts db !! tx_accountId (tv_transaction v) = Some (tv_account v)
  /\ categories db !! tx_categoryId (tv_transaction v) = Some (tv_category v)
  /\ tx_userId (tv_transaction v) = userId
  /\ passes_filters filters (tv_transaction v).
Proof.
  unfold getUserTransactions, read. intros [= <-].
  rewrite merge_sort_Permutation. apply elem_of_joined_transactions.
Qed.

(** X20.  A created transaction shows in its user's listing: after a
    completed [createTransaction] the unfiltered listing of the user holds the
    new transaction exactly once, under the returned id, with its category
    and with its account at the new balance; no other user's listing holds
    it. *)
Theorem created_transaction_is_listed (v : Transaction) (db db' : Db) (id : Z)
    (t : Transaction) :
  createTransaction v db = (Fulfilled (id, t), db') ->
  exists l a c,
    getUserTransactions (tx_userId v) None db' = (Fulfilled l, db')
    /\ mkView id v a c ∈ l
    /\ balanceOf db (tx_accountId v) = Some (acc_balance a - balanceChange v)
    /\ (forall x, x ∈ l -> tv_id x = id -> x = mkView id v a c)
    /\ (forall u filters l',
          u <> tx_userId v ->
          getUserTransactions u filters db' = (Fulfilled l', db') ->
          forall x, x ∈ l' -> tv_id x <> id).
Proof.
  intros (acc & [= -> ->] & _ & _ & Hrefs & Hacc & _ & ->)%createTransaction_Fulfilled.
  unfold references_ok in Hrefs. reflect_bools.
  match goal with H : is_Some (categories _ !! _) |- _ => destruct H as [c Hc] end.
  set (db' := mkDb _ _ _ _ _ _).
  set (a := with_balance (acc_balance acc + balanceChange v) acc).
  assert (Hrow : transactions db' !! transactions_id_seq db = Some v).
  { cbn. by rewrite lookup_insert_eq. }
  assert (Ha : accounts db' !! tx_accountId v = Some a).
  { cbn. by rewrite lookup_insert_eq. }
  eexists _, a, c. split; [reflexivity |]. split_and!.
  - apply (elem_of_getUserTransactions (tx_userId v) None db' _ _ eq_refl). cbn.
    rewrite !lookup_insert_eq. by split_and!.
  - unfold balanceOf. rewrite Hacc. cbn. f_equal. lia.
  - intros [i x xa xc]
      (Hx & Hxa & Hxc & _)%(elem_of_getUserTransactions (tx_userId v) None db' _ _ eq_refl).
    cbn. intros ->. cbn in Hx, Hxa, Hxc.
    rewrite lookup_insert_eq in Hx. injection Hx as <-.
    rewrite lookup_insert_eq in Hxa. injection Hxa as <-.
    rewrite Hc in Hxc. by injection Hxc as <-.
  - intros u filters l' Hu Hl' x (Hx & _ & _ & Hxu & _)%(elem_of_getUserTransactions _ _ _ _ _ Hl')
      Hid.
    rewrite Hid, Hrow in Hx. injection Hx as Hx. apply Hu. by rewrite Hx.
Qed.

Lemma created_transaction_is_listed_witness :
  let db := example_db 50000 0 in
  let v := example_tx 12345 expense 1 1 in
  exists l a c,
    getUserTransactions (tx_userId v) None (snd (createTransaction v db))
    = (Fulfilled l, snd (createTransaction v db))
    /\ mkView 1 v a c ∈ l
    /\ balanceOf db (tx_accountId v) = Some (acc_balance a - balanceChange v).
Proof.
  intros db v.
  destruct (created_transaction_is_listed v db (snd (createTransaction v db)) 1 v)
    as (l & a & c & Hl & Hin & Hbal & _).
  - vm_compute. reflexivity.
  - by exists l, a, c.
Defined.

(** X21.  A deleted transaction is in no listing: after a completed
    [deleteTransaction], no listing, of any user and with any filters, holds
    a row under the deleted id, and every other transaction is listed for the
    same users and filters as before. *)
Theorem deleted_transaction_is_not_listed (id userId : Z) (db db' : Db)
    (u : Z) (filters : option TransactionFilters) :
  deleteTransaction id userId db = (Fulfilled tt, db') ->
  exists l l',
    getUserTransactions u filters db = (Fulfilled l, db)
    /\ getUserTransactions u filters db' = (Fulfilled l', db')
    /\ (forall x, x ∈ l' -> tv_id x <> id)
    /\ (forall j tr, j <> id ->
          (exists a c, mkView j tr a c ∈ l) <-> (exists a c, mkView j tr a c ∈ l')).
Proof.
  intros (t & acc & Ht & _ & Hacc & _ & ->)%deleteTransaction_Fulfilled.
  set (db' := mkDb _ _ _ _ _ _).
  eexists _, _. split; [reflexivity |]. split; [reflexivity |]. split.
  - intros x (Hx & _)%(elem_of_getUserTransactions u filters db' _ _ eq_refl) Hid.
    cbn in Hx. by rewrite Hid, lookup_delete_eq in Hx.
  - intros j tr Hj. split.
    + intros (a & c & (Hx & Ha & Hc & Hu & Hf)
                       %(elem_of_getUserTransactions u filters db _ _ eq_refl)).
      cbn in Hx, Ha, Hc, Hu, Hf.
      assert (is_Some (accounts db' !! tx_accountId tr)) as [a' Ha'].
      { cbn. destruct (decide (tx_accountId tr = tx_accountId t)) as [-> | Hne].
        - rewrite lookup_insert_eq. eauto.
        - rewrite lookup_insert_ne by done. eauto. }
      exists a', c.
      apply (elem_of_getUserTransactions u filters db' _ _ eq_refl). cbn.
      rewrite lookup_delete_ne by done. by split_and!.
    + intros (a & c & (Hx & Ha & Hc & Hu & Hf)
                       %(elem_of_getUserTransactions u filters db' _ _ eq_refl)).
      cbn in Hx, Ha, Hc, Hu, Hf. rewrite lookup_delete_ne in Hx by done.
      assert (is_Some (accounts db !! tx_accountId tr)) as [a' Ha'].
      { destruct (decide (tx_accountId tr = tx_accountId t)) as [-> | Hne].
        - eauto.
        - rewrite lookup_insert_ne in Ha by done. eauto. }
      exists a', c.
      apply (elem_of_getUserTransactions u filters db _ _ eq_refl). cbn.
      by split_and!.
Qed.

Lemma deleted_transaction_is_not_listed_witness :
  let db := example_ledger 60000 10000 in
  exists l l',
    getUserTransactions 1 None db = (Fulfilled l, db)
    /\ getUserTransactions 1 None (snd (deleteTransaction 1 1 db))
       = (Fulfilled l', snd (deleteTransaction 1 1 db))
    /\ (forall x, x ∈ l' -> tv_id x <> 1).
Proof.
  intros db.
  destruct (deleted_transaction_is_not_listed 1 1 db (snd (deleteTransaction 1 1 db)) 1 None)
    as (l & l' & Hl & Hl' & Hnot & _).
  - vm_compute. reflexivity.
  - by exists l, l'.
Defined.

(** ** Reading definitions and accounts *)

(** X22.  [getUserRecurringTransactions] returns exactly the definitions of
    the user whose account and category rows exist, paused ones included.
    Every definition of the user that a pass finds due is in the list with
    the same rows, and each listed definition is the one
    [getRecurringTransaction] returns for its id. *)
Theorem getUserRecurringTransactions_lists (userId : Z) (db : Db) :
  exists l,
    getUserRecurringTransactions userId db = (Fulfilled l, db)
    /\ (forall x, x ∈ l <->
          recurringTransactions db !! due_id x = Some (due_recurring x)
          /\ accounts db !! rt_accountId (due_recurring x) = Some (due_account x)
          /\ categories db !! rt_categoryId (due_recurring x) = Some (due_category x)
          /\ rt_userId (due_recurring x) = userId)
    /\ (forall now d, d ∈ dueList now db -> rt_userId (due_recurring d) = userId -> d ∈ l)
    /\ (forall x, x ∈ l ->
          getRecurringTransaction (due_id x) userId db
          = (Fulfilled (Some (due_recurring x)), db)).
Proof.
  eexists. split; [reflexivity |].
  assert (Hmem : forall x,
    x ∈ omap (fun row : Z * RecurringTransaction =>
                match accounts db !! rt_accountId (snd row),
                      categories db !! rt_categoryId (snd row) with
                | Some a, Some c =>
                    if bool_decide (rt_userId (snd row) = userId)
                    then Some (mkDue (fst row) (snd row) a c) else None
                | _, _ => None
                end) (map_to_list (recurringTransactions db)) <->
    recurringTransactions db !! due_id x = Some (due_recurring x)
    /\ accounts db !! rt_accountId (due_recurring x) = Some (due_account x)
    /\ categories db !! rt_categoryId (due_recurring x) = Some (due_category x)
    /\ rt_userId (due_recurring x) = userId).
  { intros x. rewrite list_elem_of_omap. split.
    - intros ([id r] & Hin%elem_of_map_to_list & Hjoin). cbn in Hjoin.
      destruct (accounts db !! rt_accountId r) as [a |] eqn:Ha; [| done].
      destruct (categories db !! rt_categoryId r) as [c |] eqn:Hc; [| done].
      case_bool_decide as Hu; [| done]. injection Hjoin as <-. done.
    - intros (Hr & Ha & Hc & Hu). destruct x as [id r a c]. cbn in *.
      exists (id, r). split; [by apply elem_of_map_to_list |]. cbn.
      rewrite Ha, Hc. by rewrite bool_decide_eq_true_2. }
  split_and!.
  - exact Hmem.
  - intros now d (Hr & Ha & Hc & _)%elem_of_dueList Hu. apply Hmem. by split_and!.
  - intros x (Hr & _ & _ & Hu)%Hmem.
    unfold getRecurringTransaction, read, owned_recurring. rewrite Hr.
    by rewrite bool_decide_eq_true_2.
Qed.

(** X23.  [getUserAccounts] returns, each once, exactly the accounts
    [getAccount] returns for the user: an account of another user is in
    neither, whatever id is asked for. *)
Theorem getUserAccounts_lists (userId : Z) (db : Db) :
  exists l,
    getUserAccounts userId db = (Fulfilled l, db)
    /\ (forall id a, (id, a) ∈ l <-> getAccount id userId db = (Fulfilled (Some a), db))
    /\ (forall id a, (id, a) ∈ l <-> accounts db !! id = Some a /\ acc_userId a = userId)
    /\ NoDup (fst <$> l).
Proof.
  eexists. split; [reflexivity |].
  assert (Hmem : forall id a,
    (id, a) ∈ filter (fun row => acc_userId (snd row) = userId) (map_to_list (accounts db))
    <-> accounts db !! id = Some a /\ acc_userId a = userId).
  { intros id a. rewrite list_elem_of_filter, elem_of_map_to_list. cbn. tauto. }
  split_and!.
  - intros id a. rewrite Hmem. unfold getAccount, read, owned_account. split.
    + intros [-> Hu]. by rewrite bool_decide_eq_true_2.
    + intros [= Hget]. destruct (accounts db !! id) as [a' |]; [| done].
      case_bool_decide; by simplify_eq.
  - exact Hmem.
  - clear Hmem. pose proof (NoDup_fst_map_to_list (accounts db)) as Hnd.
    induction (map_to_list (accounts db)) as [| row l IH]; [constructor |].
    apply NoDup_cons in Hnd as [Hrow Hnd]. specialize (IH Hnd).
    rewrite filter_cons. case_decide; [| done].
    cbn. apply NoDup_cons. split; [| done].
    intros (row' & Heq & [_ Hin]%list_elem_of_filter)%list_elem_of_fmap.
    apply Hrow. apply list_elem_of_fmap. by exists row'.
Qed.
